(** * Wanggan GPS: the receive loop, the line decoder and the track assembler

    A shallow embedding of [wanggan_gps.py] (class [WangganGPS]):
    - [receive_data]: the polling loop with its idle and hard timeouts,
    - [parse_dms_coordinate], [parse_track_line], [parse_header_line]:
      the three [re.match] based line decoders,
    - [parse_raw_data]: the fold that groups lines into tracks,
    - [export_tracks]: the choice between per-track and combined output.

    Conventions.
    - Text is [string]; raw data is [list byte].
    - Python [float] is IEEE-754 binary64, modelled by [spec_float] at
      precision 53 and maximal exponent 1024 with round-to-nearest-even.
    - Python [int] is [Z].  [int()] of a decimal literal of more than 4300
      digits raises [ValueError], the interpreter's default limit
      ([sys.int_info.default_max_str_digits]).
    - A Python exception is the [Raise] outcome of the [Exn] monad.
    - Time is counted in whole milliseconds ([Z]), and so are the timeouts,
      which are finite; [time.sleep] is the only operation besides a
      transport poll that lets the clock advance.
    - The transport is a script of answers to the polls: [in_waiting] and
      [read] return, they do not raise. *)

From Stdlib Require Import ZArith List String Ascii Strings.Byte Bool Lia.
From Stdlib Require Import Floats.SpecFloat.
Import ListNotations.

Local Open Scope string_scope.
Local Open Scope Z_scope.

(** ** Outcomes of Python code that may raise *)

Inductive PyErr : Type :=
| OverflowError
| ValueError.

Inductive Exn (A : Type) : Type :=
| Return (a : A)
| Raise (e : PyErr).

Arguments Return {A} a.
Arguments Raise {A} e.

Definition bind {A B : Type} (m : Exn A) (f : A -> Exn B) : Exn B :=
  match m with
  | Return a => f a
  | Raise e => Raise e
  end.

Notation "x <- m ;; k" := (bind m (fun x => k))
  (at level 61, m at next level, right associativity).

(** ** Characters and strings *)

Module Chars.

Definition code (c : ascii) : N := N_of_ascii c.

(** [\d] restricted to ASCII text. *)
Definition is_digit (c : ascii) : bool :=
  ((48 <=? code c) && (code c <=? 57))%N.

(** [[a-z]] *)
Definition is_lower (c : ascii) : bool :=
  ((97 <=? code c) && (code c <=? 122))%N.

(** [[+-]] *)
Definition is_sign (c : ascii) : bool :=
  (Ascii.eqb c "+" || Ascii.eqb c "-")%bool.

(** [str.isspace] on the ASCII range: TAB, LF, VT, FF, CR, FS, GS, RS, US
    and the blank. *)
Definition is_space (c : ascii) : bool :=
  (((9 <=? code c) && (code c <=? 13))
   || ((28 <=? code c) && (code c <=? 32)))%N.

(** [str.lower] on one ASCII character. *)
Definition lower (c : ascii) : ascii :=
  if ((65 <=? code c) && (code c <=? 90))%N
  then ascii_of_N (code c + 32) else c.

Definition digit_val (c : ascii) : Z := Z.of_N (code c) - 48.

End Chars.

Module Str.

Fixpoint all (p : ascii -> bool) (s : string) : bool :=
  match s with
  | EmptyString => true
  | String c s' => p c && all p s'
  end.

(** Longest prefix of characters in [p], and what follows it. *)
Fixpoint span (p : ascii -> bool) (s : string) : string * string :=
  match s with
  | EmptyString => (EmptyString, EmptyString)
  | String c s' =>
      if p c then let '(ds, rest) := span p s' in (String c ds, rest)
      else (EmptyString, s)
  end.

Definition is_empty (s : string) : bool :=
  match s with EmptyString => true | _ => false end.

(** Does [s] start with a character of [p]? *)
Definition starts (p : ascii -> bool) (s : string) : bool :=
  match s with String c _ => p c | EmptyString => false end.

(** A non-empty run of decimal digits. *)
Definition is_number (s : string) : bool :=
  negb (is_empty s) && all Chars.is_digit s.

(** The first [n] characters (fewer when [s] is shorter). *)
Fixpoint take (n : nat) (s : string) : string :=
  match n, s with
  | S n', String c s' => String c (take n' s')
  | _, _ => EmptyString
  end.

Fixpoint drop (n : nat) (s : string) : string :=
  match n, s with
  | S n', String _ s' => drop n' s'
  | _, _ => s
  end.

(** Python's [s[i:j]] for literal [0 <= i <= j]. *)
Definition slice (i j : nat) (s : string) : string :=
  take (j - i) (drop i s).

Fixpoint map (f : ascii -> ascii) (s : string) : string :=
  match s with
  | EmptyString => EmptyString
  | String c s' => String (f c) (map f s')
  end.

(** [s.replace(c, r)] for a one-character needle [c]. *)
Fixpoint replace (c : ascii) (r : string) (s : string) : string :=
  match s with
  | EmptyString => EmptyString
  | String a s' =>
      if Ascii.eqb a c then r ++ replace c r s'
      else String a (replace c r s')
  end.

Fixpoint rev_onto (s acc : string) : string :=
  match s with
  | EmptyString => acc
  | String c s' => rev_onto s' (String c acc)
  end.

Definition rev (s : string) : string := rev_onto s EmptyString.

Fixpoint lstrip (s : string) : string :=
  match s with
  | String c s' => if Chars.is_space c then lstrip s' else s
  | EmptyString => EmptyString
  end.

Definition rstrip (s : string) : string := rev (lstrip (rev s)).

(** [s.strip()] *)
Definition strip (s : string) : string := rstrip (lstrip s).

(** [s.split('\n')]: never empty, a trailing newline gives a last empty
    piece. *)
Fixpoint split_nl (s : string) : list string :=
  match s with
  | EmptyString => [EmptyString]
  | String c s' =>
      if Ascii.eqb c "010" then EmptyString :: split_nl s'
      else match split_nl s' with
           | h :: t => String c h :: t
           | [] => [String c EmptyString]
           end
  end.

(** Value of a run of decimal digits, most significant first. *)
Fixpoint digits_val (acc : Z) (s : string) : Z :=
  match s with
  | EmptyString => acc
  | String c s' => digits_val (10 * acc + Chars.digit_val c) s'
  end.

Definition value (s : string) : Z := digits_val 0 s.

(** Decimal digits of a natural number, least significant first; the
    fuel is at least the number of digits. *)
Fixpoint rev_digits (fuel : nat) (n : Z) : string :=
  match fuel with
  | O => EmptyString
  | S f =>
      let d := ascii_of_N (Z.to_N (48 + n mod 10)) in
      if n <? 10 then String d EmptyString
      else String d (rev_digits f (n / 10))
  end.

Definition decimal (n : Z) : string :=
  rev (rev_digits (S (Z.to_nat (Z.log2 n))) n).

(** The [:04d] format of a natural number: decimal, padded with zeros on
    the left to four characters. *)
Definition fmt_04d (n : Z) : string :=
  let s := decimal n in
  take (4 - String.length s) "0000" ++ s.

End Str.

(** ** Python floats *)

Module Float.

Definition prec : Z := 53.
Definition emax : Z := 1024.

Definition float : Type := spec_float.

Definition add : float -> float -> float := SFadd prec emax.
Definition mul : float -> float -> float := SFmul prec emax.
Definition div : float -> float -> float := SFdiv prec emax.
Definition opp : float -> float := SFopp.

(** Nearest binary64 to the integer [z], ties to even; an infinity when
    [z] is beyond the largest finite value. *)
Definition round_int (z : Z) : float := binary_normalize prec emax z 0 false.

Definition zero : float := S754_zero false.

(** Implicit conversion of an [int] operand of a float operation
    ([PyLong_AsDouble]): raises where the rounding would overflow. *)
Definition of_int (z : Z) : Exn float :=
  match round_int z with
  | S754_infinity _ => Raise OverflowError
  | x => Return x
  end.

(** Small integer constants of the source ([60], [3600], [1], [-1]),
    which convert exactly. *)
Definition const (z : Z) : float := round_int z.

(** Nearest binary64 to [n / 10^k] for [n >= 0], ties to even.  The
    quotient is computed with at least 64 significant bits and a sticky
    last bit, then rounded once. *)
Definition round_decimal (n : Z) (k : nat) : float :=
  if n =? 0 then zero
  else
    let den := 10 ^ Z.of_nat k in
    let s := Z.max 0 (66 + Z.log2 den - Z.log2 n) in
    let num := Z.shiftl n s in
    let q := num / den in
    let sticky := if num mod den =? 0 then 0 else 1 in
    binary_normalize prec emax (2 * q + sticky) (- s - 1) false.

(** [float(s)] for [s] of the shape [digits] or [digits.digits], the only
    shapes the decoders pass to it. *)
Definition of_string (s : string) : float :=
  let '(ip, rest) := Str.span Chars.is_digit s in
  let fp := match rest with
            | String _ fp => fst (Str.span Chars.is_digit fp)
            | EmptyString => EmptyString
            end in
  round_decimal (Str.digits_val 0 (ip ++ fp)) (String.length fp).

End Float.

(** ** Regular expressions, as [re.match] runs them

    The fragment the three patterns of the source need: literal characters,
    character classes, the greedy [+] of a class, concatenation and capturing
    groups.  [run] is a backtracking matcher anchored at the start of the
    subject and not at its end, which is what [re.match] is; the first
    success in priority order (longest repetition first) wins. *)

Module Re.

Inductive regex : Type :=
| Lit (c : ascii)
| Class (p : ascii -> bool)
| Plus (p : ascii -> bool)
| Seq (r1 r2 : regex)
| Group (r : regex).

(** Greedy [p+]: take one character of [p], try to take more, and fall
    back to the continuation only when the longer attempt fails. *)
Fixpoint plus_greedy {A : Type} (p : ascii -> bool) (s : string)
    (k : string -> option A) : option A :=
  match s with
  | String c s' =>
      if p c then
        match plus_greedy p s' k with
        | Some r => Some r
        | None => k s'
        end
      else None
  | EmptyString => None
  end.

Fixpoint run (r : regex) (s : string) (caps : list string)
    (k : string -> list string -> option (list string))
    : option (list string) :=
  match r with
  | Lit c =>
      match s with
      | String a s' => if Ascii.eqb a c then k s' caps else None
      | EmptyString => None
      end
  | Class p =>
      match s with
      | String a s' => if p a then k s' caps else None
      | EmptyString => None
      end
  | Plus p => plus_greedy p s (fun s' => k s' caps)
  | Seq r1 r2 => run r1 s caps (fun s1 caps1 => run r2 s1 caps1 k)
  | Group r1 =>
      run r1 s caps
        (fun s1 caps1 =>
           k s1 (caps1 ++ [Str.take (String.length s - String.length s1) s])%list)
  end.

(** The continuation at the end of a pattern: the match succeeds with the
    groups captured so far, whatever is left of the subject. *)
Definition accept : string -> list string -> option (list string) :=
  fun _ caps => Some caps.

(** [re.match(r, s)], reduced to [m.groups()] of the match object. *)
Definition match_groups (r : regex) (s : string) : option (list string) :=
  run r s [] accept.

(** A single left-to-right scan that never backtracks: every repetition
    takes the longest run.  [run_scan] below shows [run] computes the same
    on a pattern in which no repetition can give characters back. *)
Fixpoint scan (r : regex) (s : string) (caps : list string)
    : option (string * list string) :=
  match r with
  | Lit c =>
      match s with
      | String a s' => if Ascii.eqb a c then Some (s', caps) else None
      | EmptyString => None
      end
  | Class p =>
      match s with
      | String a s' => if p a then Some (s', caps) else None
      | EmptyString => None
      end
  | Plus p =>
      let '(ds, rest) := Str.span p s in
      if Str.is_empty ds then None else Some (rest, caps)
  | Seq r1 r2 =>
      match scan r1 s caps with
      | Some (s1, caps1) => scan r2 s1 caps1
      | None => None
      end
  | Group r1 =>
      match scan r1 s caps with
      | Some (s1, caps1) =>
          Some (s1, (caps1 ++ [Str.take (String.length s - String.length s1) s])%list)
      | None => None
      end
  end.

(** What follows a repetition of [p] either refuses every subject that
    starts with a character of [p], or accepts every subject. *)
Definition settled (p : ascii -> bool)
    (k : string -> list string -> option (list string)) : Prop :=
  (forall a t caps, p a = true -> k (String a t) caps = None)
  \/ (forall s caps, k s caps <> None).

(** [det r k]: each repetition inside [r], run with continuation [k], is
    [settled] by what follows it. *)
Fixpoint det (r : regex) (k : string -> list string -> option (list string))
    : Prop :=
  match r with
  | Lit _ | Class _ => True
  | Plus p => settled p k
  | Seq r1 r2 => det r2 k /\ det r1 (fun s1 caps1 => run r2 s1 caps1 k)
  | Group r1 =>
      forall s0,
        det r1 (fun s1 caps1 =>
                  k s1 (caps1 ++ [Str.take (String.length s0 - String.length s1) s0])%list)
  end.

End Re.

Infix "+>" := Re.Seq (at level 61, right associativity).

Definition dquote : ascii := "034"%char.

Definition digits : Re.regex := Re.Plus Chars.is_digit.

(** The pattern of [parse_dms_coordinate],
    [([+-])(\d+)d(\d+)\'(\d+\.\d+)Q], where [Q] stands for the double quote
    character that closes the seconds. *)
Definition dms_re : Re.regex :=
  Re.Group (Re.Class Chars.is_sign) +> Re.Group digits +> Re.Lit "d" +>
  Re.Group digits +> Re.Lit "'" +>
  Re.Group (digits +> Re.Lit "." +> digits) +> Re.Lit dquote.

(** [[+-]\d+d\d+\'\d+\.\d+Q], the body of the two coordinate groups of
    the track line pattern. *)
Definition dms_token : Re.regex :=
  Re.Class Chars.is_sign +> digits +> Re.Lit "d" +> digits +> Re.Lit "'" +>
  digits +> Re.Lit "." +> digits +> Re.Lit dquote.

(** The pattern of [parse_track_line],
    [([+-]\d+d\d+\'\d+\.\d+Q)\,([+-]\d+d\d+\'\d+\.\d+Q)\,(\d+);]. *)
Definition track_re : Re.regex :=
  Re.Group dms_token +> Re.Lit "," +> Re.Group dms_token +> Re.Lit "," +>
  Re.Group digits +> Re.Lit ";".

(** The pattern of [parse_header_line],
    [n(\d+),([a-z])(\d+),([a-z])(\d+);t(\d+),N(\d+)]. *)
Definition header_re : Re.regex :=
  Re.Lit "n" +> Re.Group digits +> Re.Lit "," +>
  Re.Group (Re.Class Chars.is_lower) +> Re.Group digits +> Re.Lit "," +>
  Re.Group (Re.Class Chars.is_lower) +> Re.Group digits +> Re.Lit ";" +>
  Re.Lit "t" +> Re.Group digits +> Re.Lit "," +>
  Re.Lit "N" +> Re.Group digits.

(** ** The line decoders *)

Import Float.

(** [sys.int_info.default_max_str_digits] *)
Definition MAX_STR_DIGITS : Z := 4300.

(** [int(s)] for a run of ASCII digits: its value, unless the run is longer
    than the interpreter allows. *)
Definition int (s : string) : Exn Z :=
  if MAX_STR_DIGITS <? Z.of_nat (String.length s) then Raise ValueError
  else Return (Str.value s).

(** A track point: [(longitude, latitude, altitude)]. *)
Definition Point : Type := float * float * Z.

(** The dictionary [parse_header_line] returns, one field per key. *)
Record Header : Type := mkHeader {
  type : string;
  record_num : Z;
  latitude : float;
  longitude : float;
  timestamp : string;
  total_records : Z
}.

Definition parse_dms_coordinate (dms_str : string) : option float :=
  match Re.match_groups dms_re dms_str with
  | Some [sign_str; degrees; minutes; seconds] =>
      let sign := if String.eqb sign_str "-" then -1 else 1 in
      let decimal :=
        mul (const sign)
            (add (add (of_string degrees) (div (of_string minutes) (const 60)))
                 (div (of_string seconds) (const 3600))) in
      Some decimal
  | _ => None
  end.

Definition parse_track_line (line : string) : Exn (option Point) :=
  match Re.match_groups track_re line with
  | Some [lon_str; lat_str; alt_str] =>
      match parse_dms_coordinate lon_str, parse_dms_coordinate lat_str with
      | Some lon, Some lat =>
          alt <- int alt_str ;; Return (Some (lon, lat, alt))
      | _, _ => Return None
      end
  | _ => Return None
  end.

(** [int(value) / 10000000.0]: [int] raises on an overlong digit run; the
    integer operand is then converted to a float, which raises when it is
    out of the range of a float. *)
Definition scaled (value : string) : Exn float :=
  n <- int value ;; x <- of_int n ;; Return (div x (const 10000000)).

(** The body of [parse_header_line] once the pattern has matched, from
    [record_num, field1, ... = match.groups()] to the returned dictionary. *)
Definition header_from_groups
    (record_num field1 value1 field2 value2 timestamp total : string)
    : Exn (option Header) :=
  coords <-
    (if (String.eqb field1 "m" && String.eqb field2 "l")%bool then
       latitude <- scaled value1 ;;
       longitude <- scaled value2 ;;
       Return ("Area", latitude, longitude)
     else if (String.eqb field1 "l" && String.eqb field2 "m")%bool then
       longitude <- scaled value1 ;;
       latitude <- scaled value2 ;;
       Return ("Distance", latitude, longitude)
     else if (String.eqb field1 "p" && String.eqb field2 "p")%bool then
       latitude <- scaled value1 ;;
       longitude <- scaled value2 ;;
       Return ("Waypoint", latitude, longitude)
     else if (String.eqb field1 "k" && String.eqb field2 "l")%bool then
       longitude <- scaled value2 ;;
       Return ("Track", zero, longitude)
     else
       Return ("Unknown(" ++ field1 ++ "," ++ field2 ++ ")", zero, zero)) ;;
  let '(data_type, latitude, longitude) := coords in
  let year := Str.slice 0 4 timestamp in
  let month := Str.slice 4 6 timestamp in
  let day := Str.slice 6 8 timestamp in
  let hour := Str.slice 8 10 timestamp in
  let minute := Str.slice 10 12 timestamp in
  record <- int record_num ;;
  total_records <- int total ;;
  Return (Some {|
    type := data_type;
    record_num := record;
    latitude := latitude;
    longitude := longitude;
    timestamp := year ++ "-" ++ month ++ "-" ++ day ++ " " ++ hour ++ ":" ++ minute;
    total_records := total_records
  |}).

Definition parse_header_line (line : string) : Exn (option Header) :=
  match Re.match_groups header_re line with
  | Some [record_num; field1; value1; field2; value2; timestamp; total] =>
      header_from_groups record_num field1 value1 field2 value2 timestamp total
  | _ => Return None
  end.

(** ** [parse_raw_data] *)

(** One element of the returned list: [(header_dict, points_list)]. *)
Definition Track : Type := option Header * list Point.

(** [data.decode('ascii', errors='ignore')]: bytes outside ASCII vanish. *)
Definition decode_ascii_ignore (data : list byte) : string :=
  string_of_list_ascii
    (List.map ascii_of_byte (List.filter (fun b => (Byte.to_N b <? 128)%N) data)).

(** The three variables the loop of [parse_raw_data] updates. *)
Record Assembly : Type := mkAssembly {
  tracks : list Track;
  current_header : option Header;
  current_points : list Point
}.

Definition nonempty {A : Type} (l : list A) : bool :=
  match l with [] => false | _ :: _ => true end.

Definition is_some {A : Type} (o : option A) : bool :=
  match o with Some _ => true | None => false end.

(** [if current_header is not None or current_points:
       tracks.append((current_header, current_points))] *)
Definition save_track (st : Assembly) : list Track :=
  if (is_some (current_header st) || nonempty (current_points st))%bool
  then (tracks st ++ [(current_header st, current_points st)])%list
  else tracks st.

(** The body of [for line in text.split('\n')]. *)
Definition assemble_line (st : Assembly) (raw : string) : Exn Assembly :=
  let line := Str.strip raw in
  if (Str.is_empty line || String.eqb line "!")%bool then Return st
  else
    header <- parse_header_line line ;;
    match header with
    | Some h =>
        Return {| tracks := save_track st;
                  current_header := Some h;
                  current_points := [] |}
    | None =>
        point <- parse_track_line line ;;
        match point with
        | Some pt =>
            Return {| tracks := tracks st;
                      current_header := current_header st;
                      current_points := (current_points st ++ [pt])%list |}
        | None => Return st
        end
    end.

Fixpoint assemble_lines (st : Assembly) (lines : list string) : Exn Assembly :=
  match lines with
  | [] => Return st
  | raw :: rest => st' <- assemble_line st raw ;; assemble_lines st' rest
  end.

Definition parse_raw_data (data : list byte) : Exn (list Track) :=
  let text := decode_ascii_ignore data in
  st <- assemble_lines {| tracks := []; current_header := None;
                          current_points := [] |}
                       (Str.split_nl text) ;;
  Return (save_track st).

(** ** [export_tracks] *)

Inductive OutputFormat : Type := GPX | KML | CSV | RAW.

Definition format_value (f : OutputFormat) : string :=
  match f with GPX => "gpx" | KML => "kml" | CSV => "csv" | RAW => "raw" end.

(** What reaches the file system: the raw dump, or one call of
    [export_to_kml], [export_to_gpx] or [export_to_csv] with its arguments.
    The text these three render from their arguments is not modelled. *)
Inductive Written : Type :=
| RawFile (path : string) (data : list byte)
| KmlFile (points : list Point) (output_file track_name timestamp : string)
| GpxFile (points : list Point) (output_file track_name : string)
| CsvFile (points : list Point) (output_file : string).


Definition written_path (f : Written) : string :=
  match f with
  | RawFile p _ | KmlFile _ p _ _ | GpxFile _ p _ | CsvFile _ p => p
  end.

(** [self.output_dir / name] *)
Definition in_dir (output_dir name : string) : string :=
  output_dir ++ "/" ++ name.

(** The [if format == KML ... elif GPX ... elif CSV ...] dispatch. *)
Definition export_to (format : OutputFormat) (points : list Point)
    (output_file track_name timestamp : string) : list Written :=
  match format with
  | KML => [KmlFile points output_file track_name timestamp]
  | GPX => [GpxFile points output_file track_name]
  | CSV => [CsvFile points output_file]
  | RAW => []
  end.

(** The body of [for idx, (header, points) in enumerate(tracks)]; [n] is
    [idx + 1]. *)
Definition export_one (output_dir : string) (format : OutputFormat)
    (filename_prefix : string) (n : Z) (t : Track) : list Written :=
  let '(header, points) := t in
  if negb (nonempty points) then []
  else
    let '(file_base, track_name, track_timestamp) :=
      match header with
      | Some h =>
          let data_type := Str.map Chars.lower (type h) in
          let track_id := "n" ++ Str.fmt_04d (record_num h) in
          let track_timestamp := timestamp h in
          let timestamp :=
            Str.replace ":" EmptyString
              (Str.replace " " "_" (Str.replace "-" EmptyString track_timestamp)) in
          (data_type ++ "_" ++ track_id ++ "_" ++ timestamp,
           type h ++ " " ++ Str.decimal (record_num h),
           track_timestamp)
      | None =>
          (filename_prefix ++ "_" ++ Str.fmt_04d n,
           "Track " ++ Str.decimal n,
           EmptyString)
      end in
    let output_file := in_dir output_dir (file_base ++ "." ++ format_value format) in
    export_to format points output_file track_name track_timestamp.

Fixpoint export_each (output_dir : string) (format : OutputFormat)
    (filename_prefix : string) (n : Z) (ts : list Track) : list Written :=
  match ts with
  | [] => []
  | t :: rest =>
      (export_one output_dir format filename_prefix n t
       ++ export_each output_dir format filename_prefix (n + 1) rest)%list
  end.

(** [all_points.extend(points)] over all tracks. *)
Definition all_points (ts : list Track) : list Point :=
  List.concat (List.map snd ts).

(** [any(h is not None for h, p in tracks)] *)
Definition any_header (ts : list Track) : bool :=
  List.existsb (fun t => is_some (fst t)) ts.

(** The files written, in order; [created_files] is their paths. *)
Definition export_tracks (output_dir : string) (data : list byte)
    (format : OutputFormat) (split_by_track : bool) (filename_prefix : string)
    : Exn (list Written) :=
  match format with
  | RAW => Return [RawFile (in_dir output_dir (filename_prefix ++ ".txt")) data]
  | _ =>
      tracks <- parse_raw_data data ;;
      if (split_by_track && any_header tracks)%bool
      then Return (export_each output_dir format filename_prefix 1 tracks)
      else
        let output_file :=
          in_dir output_dir (filename_prefix ++ "." ++ format_value format) in
        Return (export_to format (all_points tracks) output_file
                          "GPS Track" EmptyString)
  end.

Definition created_files (ws : list Written) : list string :=
  List.map written_path ws.


(** ** [receive_data] *)

(** What the loop prints. *)
Inductive Msg : Type :=
| NotConnected
| Progress (bytes_so_far : nat)
| StreamIdle (idle_timeout : Z)
| Total (chunks bytes : nat).

(** One poll of the serial port as a scripted transport answers it: the
    time the poll takes, in whole milliseconds, and the bytes found waiting
    ([in_waiting] is their number, and [read(in_waiting)] returns them).
    The transport of the script does not fail: neither call raises. *)
Record Poll : Type := mkPoll {
  latency : N;
  waiting : list byte
}.

(** The environment of a session: the clock in milliseconds, the answers
    the transport will give to the coming polls (silence once the script is
    used up), and the console. *)
Record World : Type := mkWorld {
  now : Z;
  rx : list Poll;
  console : list Msg
}.

Definition time_time (w : World) : Z := now w.

Definition time_sleep (ms : Z) (w : World) : World :=
  {| now := now w + ms; rx := rx w; console := console w |}.

Definition print (m : Msg) (w : World) : World :=
  {| now := now w; rx := rx w; console := (console w ++ [m])%list |}.

Definition poll (w : World) : list byte * World :=
  match rx w with
  | [] => ([], w)
  | p :: rest =>
      (waiting p,
       {| now := now w + Z.of_N (latency p); rx := rest; console := console w |})
  end.

(** [self.serial_conn]: [None] before [connect], else a port that is open
    or closed. *)
Record Serial : Type := mkSerial { is_open : bool }.

Definition connected (serial_conn : option Serial) : bool :=
  match serial_conn with
  | Some c => is_open c
  | None => false
  end.

(** The local variables of [receive_data] at the head of its loop. *)
Record Loop : Type := mkLoop {
  world : World;
  start_time : Z;
  last_data_time : option Z;
  all_data : list byte;
  chunks_received : nat
}.

(** How one pass through [while time.time() - start_time < timeout] ends:
    at [time.sleep(0.05)] and back to the head, at the [break], or with the
    loop condition false. *)
Inductive Pass : Type :=
| Again (s : Loop)
| Broke (s : Loop)
| TimedOut (s : Loop).

Definition poll_interval : Z := 50.
Definition settle_delay : Z := 200.

(** [last_data_time and ...]: [None] and [0.0] are both false. *)
Definition truthy (t : option Z) : option Z :=
  match t with
  | Some v => if v =? 0 then None else Some v
  | None => None
  end.

Definition pass (timeout idle_timeout : Z) (s : Loop) : Pass :=
  if time_time (world s) - start_time s <? timeout then
    let '(chunk, w1) := poll (world s) in
    if nonempty chunk then
      let all := (all_data s ++ chunk)%list in
      let n := S (chunks_received s) in
      let last := time_time w1 in
      let w2 := if (n mod 10 =? 0)%nat then print (Progress (List.length all)) w1
                else w1 in
      Again {| world := time_sleep poll_interval w2;
               start_time := start_time s;
               last_data_time := Some last;
               all_data := all;
               chunks_received := n |}
    else
      match truthy (last_data_time s) with
      | Some last =>
          if idle_timeout <=? time_time w1 - last then
            Broke {| world := print (StreamIdle idle_timeout) w1;
                     start_time := start_time s;
                     last_data_time := last_data_time s;
                     all_data := all_data s;
                     chunks_received := chunks_received s |}
          else
            Again {| world := time_sleep poll_interval w1;
                     start_time := start_time s;
                     last_data_time := last_data_time s;
                     all_data := all_data s;
                     chunks_received := chunks_received s |}
      | None =>
          Again {| world := time_sleep poll_interval w1;
                   start_time := start_time s;
                   last_data_time := last_data_time s;
                   all_data := all_data s;
                   chunks_received := chunks_received s |}
      end
  else TimedOut s.

(** The loop, with a bound on the number of passes; [None] when the bound
    is reached before the loop ends. *)
Fixpoint run_loop (fuel : nat) (timeout idle_timeout : Z) (s : Loop)
    : option Pass :=
  match fuel with
  | O => None
  | S fuel' =>
      match pass timeout idle_timeout s with
      | Again s' => run_loop fuel' timeout idle_timeout s'
      | done => Some done
      end
  end.

Definition final (p : Pass) : Loop :=
  match p with Again s | Broke s | TimedOut s => s end.

(** A number of passes the loop cannot exceed: every pass that reaches the
    sleep lets the clock advance by 50 ms. *)
Definition passes_bound (timeout : Z) : nat := Z.to_nat (timeout / poll_interval) + 2.

(** The locals before the loop: [start_time = time.time()],
    [last_data_time = None], [all_data = b''], [chunks_received = 0]. *)
Definition start_state (w : World) : Loop :=
  {| world := w; start_time := time_time w; last_data_time := None;
     all_data := []; chunks_received := 0 |}.

(** The result of [receive_data] and the environment it leaves.  The
    outer [option] is [None] only if [fuel] passes did not end the loop. *)
Definition receive_data_in (fuel : nat) (serial_conn : option Serial)
    (w : World) (timeout idle_timeout : Z)
    : option (option (list byte) * World) :=
  if negb (connected serial_conn) then Some (None, print NotConnected w)
  else
    let w0 := time_sleep settle_delay w in
    match run_loop fuel timeout idle_timeout (start_state w0) with
    | None => None
    | Some p =>
        let s := final p in
        let w1 := if (0 <? chunks_received s)%nat
                  then print (Total (chunks_received s) (List.length (all_data s)))
                             (world s)
                  else world s in
        Some (if nonempty (all_data s) then Some (all_data s) else None, w1)
    end.

Definition receive_data (serial_conn : option Serial) (w : World)
    (timeout idle_timeout : Z) : option (option (list byte) * World) :=
  receive_data_in (passes_bound timeout) serial_conn w timeout idle_timeout.

Definition DOWNLOAD_TIMEOUT : Z := 60000.
Definition DEFAULT_IDLE_TIMEOUT : Z := 3000.

Definition bytes_of (s : string) : list byte :=
  List.map byte_of_ascii (list_ascii_of_string s).

(** ** The grammars, written out

    The texts the three patterns describe, built from their fields, to state
    what the decoders accept. *)

Definition dq : string := String dquote EmptyString.
Definition nl : string := String "010" EmptyString.

(** [<sign><degrees>d<minutes>'<seconds>.<fraction>Q] *)
Definition dms_text (sg : ascii) (deg mins si sf : string) : string :=
  String sg (deg ++ "d" ++ mins ++ "'" ++ si ++ "." ++ sf ++ dq).

Definition dms_ok (sg : ascii) (deg mins si sf : string) : bool :=
  Chars.is_sign sg && Str.is_number deg && Str.is_number mins
  && Str.is_number si && Str.is_number sf.

(** [sign * (degrees + minutes/60 + seconds/3600)] with the factor [-1] for
    the sign character [-] and [1] otherwise. *)
Definition dms_value (sg : ascii) (deg mins secs : string) : float :=
  mul (const (if Ascii.eqb sg "-" then -1 else 1))
      (add (add (of_string deg) (div (of_string mins) (const 60)))
           (div (of_string secs) (const 3600))).

(** [tok] starts with a DMS text. *)
Definition is_dms (tok : string) : Prop :=
  exists sg deg mins si sf rest,
    dms_ok sg deg mins si sf = true /\ tok = dms_text sg deg mins si sf ++ rest.

(** [<dms>,<dms>,<altitude>;] *)
Definition track_text (lon lat alt : string) : string :=
  lon ++ "," ++ lat ++ "," ++ alt ++ ";".

(** [n<digits>,<letter><digits>,<letter><digits>;t<digits>,N<digits>] *)
Definition header_text (rn : string) (f1 : ascii) (v1 : string) (f2 : ascii)
    (v2 ts tot : string) : string :=
  "n" ++ rn ++ "," ++ String f1 v1 ++ "," ++ String f2 v2 ++ ";t" ++ ts
  ++ ",N" ++ tot.

Definition header_ok (rn : string) (f1 : ascii) (v1 : string) (f2 : ascii)
    (v2 ts tot : string) : bool :=
  Str.is_number rn && Chars.is_lower f1 && Str.is_number v1
  && Chars.is_lower f2 && Str.is_number v2 && Str.is_number ts
  && Str.is_number tot.

(** The header grammar as the specification words it: the same text with
    exactly twelve timestamp digits (anything may follow the last field). *)
Definition spec_header_grammar (line : string) : Prop :=
  exists rn f1 v1 f2 v2 ts tot rest,
    header_ok rn f1 v1 f2 v2 ts tot = true
    /\ String.length ts = 12%nat
    /\ line = header_text rn f1 v1 f2 v2 ts tot ++ rest.

(** [f'{year}-{month}-{day} {hour}:{minute}'] from the slices of the
    timestamp digits. *)
Definition stamp (ts : string) : string :=
  Str.slice 0 4 ts ++ "-" ++ Str.slice 4 6 ts ++ "-" ++ Str.slice 6 8 ts
  ++ " " ++ Str.slice 8 10 ts ++ ":" ++ Str.slice 10 12 ts.

(** ** Lines by kind, and the grouping of §4.4

    What [parse_raw_data] makes of one line of the decoded text, and the
    tracks the specification's assembler builds from a sequence of such
    kinds; [parse_raw_data] is compared with it below. *)

Inductive LineKind : Type :=
| Skipped                 (* blank, or the sentinel [!] *)
| IsHeader (h : Header)
| IsPoint (p : Point)
| Noise                   (* matches neither pattern *)
| Fails (e : PyErr).      (* a decoder raises *)

Definition classify (raw : string) : LineKind :=
  let line := Str.strip raw in
  if (Str.is_empty line || String.eqb line "!")%bool then Skipped
  else
    match parse_header_line line with
    | Raise e => Fails e
    | Return (Some h) => IsHeader h
    | Return None =>
        match parse_track_line line with
        | Raise e => Fails e
        | Return (Some p) => IsPoint p
        | Return None => Noise
        end
    end.

Definition lines_of (data : list byte) : list string :=
  Str.split_nl (decode_ascii_ignore data).

Definition kinds (data : list byte) : list LineKind :=
  List.map classify (lines_of data).

Definition headers_of (ks : list LineKind) : list Header :=
  List.flat_map (fun k => match k with IsHeader h => [h] | _ => [] end) ks.

Definition points_of (ks : list LineKind) : list Point :=
  List.flat_map (fun k => match k with IsPoint p => [p] | _ => [] end) ks.

Definition is_point (k : LineKind) : bool :=
  match k with IsPoint _ => true | _ => false end.

(** The headers of the tracks that have one, in track order. *)
Definition track_headers (ts : list Track) : list Header :=
  List.flat_map (fun t => match fst t with Some h => [h] | None => [] end) ts.

(** Flush: a track for the current header and points, unless there is
    neither. *)
Definition flush (cur : option Header) (pts : list Point) : list Track :=
  if (is_some cur || nonempty pts)%bool then [(cur, pts)] else [].

(** The assembler of §4.4: a header flushes and starts afresh, a
    coordinate is appended, the end of input flushes. *)
Fixpoint group (cur : option Header) (pts : list Point) (ks : list LineKind)
    : list Track :=
  match ks with
  | [] => flush cur pts
  | IsHeader h :: rest => (flush cur pts ++ group (Some h) [] rest)%list
  | IsPoint p :: rest => group cur (pts ++ [p])%list rest
  | _ :: rest => group cur pts rest
  end.

(** No line makes a decoder raise. *)
Definition no_failure (ks : list LineKind) : Prop :=
  forall e, ~ In (Fails e) ks.

(** Only blank or sentinel lines and coordinate lines. *)
Definition coordinates_only (ks : list LineKind) : Prop :=
  Forall (fun k => k = Skipped \/ exists p, k = IsPoint p) ks.

(** [c * n] for a one-character string [c]. *)
Fixpoint replicate (n : nat) (c : ascii) : string :=
  match n with
  | O => EmptyString
  | S n' => String c (replicate n' c)
  end.

(** A header line whose first value has 309 digits, more than a float
    holds. *)
Definition overflowing_header : string :=
  "n1,m" ++ replicate 309 "9" ++ ",l1;t202401151030,N1".

(** The bytes the first [n] polls of a script deliver, concatenated. *)
Definition delivered (n : nat) (script : list Poll) : list byte :=
  List.concat (List.map waiting (List.firstn n script)).



(** The loop has taken the first polls of [script] and holds what they
    delivered. *)
Definition consumed (script : list Poll) (s : Loop) : Prop :=
  exists n,
    rx (world s) = List.skipn n script /\ all_data s = delivered n script.

(** The idle clock is set exactly when a chunk has been counted. *)
Definition primed (s : Loop) : Prop :=
  chunks_received s = 0%nat <-> last_data_time s = None.

(** ** Sample inputs *)

(** Two coordinate lines around a sentinel line. *)
Definition two_points : list byte :=
  bytes_of (track_text (dms_text "-" "008" "35" "28" "86540")
                       (dms_text "+" "41" "06" "52" "58100") "01769" ++ nl
            ++ "!" ++ nl
            ++ track_text (dms_text "-" "008" "35" "29" "00000")
                          (dms_text "+" "41" "06" "53" "00000") "01770" ++ nl).

(** Two header lines in a row, and the headers they decode to. *)
Definition two_headers : list byte :=
  bytes_of ("n0001,m0410000000,l0082300000;t202401151030,N0005" ++ nl
            ++ "n0002,k0000000000,l0082300000;t202401151100,N0003" ++ nl).

Definition header_1 : Header :=
  {| type := "Area"; record_num := 1;
     latitude := S754_finite false 5770237022568448 (-47);
     longitude := S754_finite false 4633078116657398 (-49);
     timestamp := "2024-01-15 10:30"; total_records := 5 |}.

Definition header_2 : Header :=
  {| type := "Track"; record_num := 2;
     latitude := zero;
     longitude := S754_finite false 4633078116657398 (-49);
     timestamp := "2024-01-15 11:00"; total_records := 3 |}.

(** A transport that never delivers anything, at one second past the
    epoch. *)
Definition quiet : World := {| now := 1000; rx := []; console := [] |}.

(** Three chunks on consecutive polls, then silence. *)
Definition three_chunks : World :=
  {| now := 1000;
     rx := [mkPoll 2 (bytes_of "n0001,m04"); mkPoll 1 (bytes_of "10000000,l00");
            mkPoll 0 (bytes_of "82300000;")];
     console := [] |}.


(** ** [connect], [disconnect], [send_trigger], [download] and
    [download_and_export]

    The object's [serial_conn] with what surrounds it.  The output
    directory is taken to exist, as the constructor makes it by default: a
    write to a name inside it succeeds, a write to the directory itself
    raises.  Of the console output only the messages of [Msg] are kept. *)

Inductive DownloadMode : Type := TILDE | EXCLAMATION | CARET.

(** [mode.value] *)
Definition mode_value (m : DownloadMode) : byte :=
  match m with TILDE => x7e | EXCLAMATION => x21 | CARET => x5e end.

(** [mode.name] *)
Definition mode_name (m : DownloadMode) : string :=
  match m with
  | TILDE => "TILDE" | EXCLAMATION => "EXCLAMATION" | CARET => "CARET"
  end.

(** How [reset_input_buffer(); write(...); flush()] goes: through; raising
    before anything is written; or raising in [flush], the byte written. *)
Inductive TriggerIO : Type := Delivered | Refused | Unflushed.

(** What the operating system answers: whether [serial.Serial(...)] opens
    the port, how the trigger write goes, and [time.strftime] of the
    format [%Y%m%d_%H%M%S] at a clock reading. *)
Record Host : Type := mkHost {
  opens : bool;
  trigger_io : TriggerIO;
  strftime : Z -> string
}.

(** The object ([serial_conn]) and the effects of its methods: the clock,
    transport and console, the bytes written to the port, the files
    written. *)
Record Station : Type := mkStation {
  serial_conn : option Serial;
  air : World;
  sent : list byte;
  files : list Written
}.

(** An exception that leaves [download] or [download_and_export]. *)
Inductive Raised : Type :=
| FromDecoder (e : PyErr)
| OSError.

Inductive Result (A : Type) : Type :=
| Ok (a : A)
| Fail (r : Raised).

Arguments Ok {A} a.
Arguments Fail {A} r.

Definition CONNECT_DELAY : Z := 2000.

Definition connect (host : Host) (st : Station) : bool * Station :=
  if opens host then
    (true, {| serial_conn := Some (mkSerial true);
              air := time_sleep CONNECT_DELAY (air st);
              sent := sent st; files := files st |})
  else (false, st).

Definition disconnect (st : Station) : Station :=
  if connected (serial_conn st) then
    {| serial_conn := Some (mkSerial false); air := air st;
       sent := sent st; files := files st |}
  else st.

Definition send_trigger (host : Host) (st : Station) (mode : DownloadMode)
    : bool * Station :=
  if negb (connected (serial_conn st)) then
    (false, {| serial_conn := serial_conn st; air := print NotConnected (air st);
               sent := sent st; files := files st |})
  else
    match trigger_io host with
    | Delivered =>
        (true, {| serial_conn := serial_conn st; air := air st;
                  sent := (sent st ++ [mode_value mode])%list; files := files st |})
    | Unflushed =>
        (false, {| serial_conn := serial_conn st; air := air st;
                   sent := (sent st ++ [mode_value mode])%list; files := files st |})
    | Refused => (false, st)
    end.

(** Truth value of [raw_filename]: [None] and the empty string are false. *)
Definition named (raw_filename : option string) : bool :=
  match raw_filename with
  | Some f => negb (Str.is_empty f)
  | None => false
  end.

(** [f"gps_export_{mode.name.lower()}_{timestamp}.txt"] *)
Definition raw_name (host : Host) (mode : DownloadMode) (clock : Z) : string :=
  "gps_export_" ++ Str.map Chars.lower (mode_name mode) ++ "_"
  ++ strftime host clock ++ ".txt".

(** [download]; the outer [option] is that of [receive_data]. *)
Definition download (host : Host) (output_dir : string) (st : Station)
    (mode : DownloadMode) (save_raw : bool) (raw_filename : option string)
    : option (Result (option (list byte)) * Station) :=
  let '(is_connected, st1) :=
    if negb (connected (serial_conn st)) then connect host st else (true, st) in
  if negb is_connected then Some (Ok None, st1)
  else
    let '(triggered, st2) := send_trigger host st1 mode in
    if negb triggered then Some (Ok None, st2)
    else
      match receive_data (serial_conn st2) (air st2)
                         DOWNLOAD_TIMEOUT DEFAULT_IDLE_TIMEOUT with
      | None => None
      | Some (data, w) =>
          let st3 := {| serial_conn := serial_conn st2; air := w;
                        sent := sent st2; files := files st2 |} in
          match data with
          | Some d =>
              if (nonempty d && (save_raw || named raw_filename))%bool then
                let name := match raw_filename with
                            | Some f => f
                            | None => raw_name host mode (time_time w)
                            end in
                if Str.is_empty name then Some (Fail OSError, st3)
                else
                  Some (Ok data,
                        {| serial_conn := serial_conn st3; air := air st3;
                           sent := sent st3;
                           files := (files st3
                                     ++ [RawFile (in_dir output_dir name) d])%list |})
              else Some (Ok data, st3)
          | None => Some (Ok None, st3)
          end
      end.

(** [download_and_export], with the paths of the files it returns. *)
Definition download_and_export (host : Host) (output_dir : string)
    (st : Station) (mode : DownloadMode) (format : OutputFormat)
    (split_by_track save_raw : bool)
    : option (Result (list string) * Station) :=
  match download host output_dir st mode save_raw None with
  | None => None
  | Some (Fail r, st1) => Some (Fail r, st1)
  | Some (Ok data, st1) =>
      match data with
      | Some d =>
          if negb (nonempty d) then Some (Ok [], st1)
          else
            match export_tracks output_dir d format split_by_track "track" with
            | Return ws =>
                Some (Ok (created_files ws),
                      {| serial_conn := serial_conn st1; air := air st1;
                         sent := sent st1; files := (files st1 ++ ws)%list |})
            | Raise e => Some (Fail (FromDecoder e), st1)
            end
      | None => Some (Ok [], st1)
      end
  end.

(** A host on which everything works, at a fixed time of day. *)
Definition good_host : Host :=
  {| opens := true; trigger_io := Delivered;
     strftime := fun _ => "20240115_103000" |}.

(** An object not yet connected, before a device that answers with three
    chunks. *)
Definition fresh_station : Station :=
  {| serial_conn := None; air := three_chunks; sent := []; files := [] |}.

(** A header, a point, a sentinel line and a second point. *)
Definition with_sentinel : list byte :=
  bytes_of ("n0001,m0410000000,l0082300000;t202401151030,N0005" ++ nl
            ++ track_text (dms_text "-" "008" "35" "28" "86540")
                          (dms_text "+" "41" "06" "52" "58100") "01769" ++ nl
            ++ "!" ++ nl
            ++ track_text (dms_text "-" "008" "35" "29" "00000")
                          (dms_text "+" "41" "06" "53" "00000") "01770" ++ nl).

(** The same records between blank lines and noise, without sentinel. *)
Definition with_noise : list byte :=
  bytes_of (nl ++ "n0001,m0410000000,l0082300000;t202401151030,N0005" ++ nl
            ++ "   " ++ nl
            ++ track_text (dms_text "-" "008" "35" "28" "86540")
                          (dms_text "+" "41" "06" "52" "58100") "01769" ++ nl
            ++ "garbage line" ++ nl
            ++ track_text (dms_text "-" "008" "35" "29" "00000")
                          (dms_text "+" "41" "06" "53" "00000") "01770").

(** ** Vocabulary of the further properties *)

(** The bytes [decode('ascii', errors='ignore')] keeps. *)
Definition ascii_only (data : list byte) : list byte :=
  List.filter (fun b => (Byte.to_N b <? 128)%N) data.

(** A line that is a header or a coordinate. *)
Definition is_record (k : LineKind) : bool :=
  match k with IsHeader _ | IsPoint _ => true | _ => false end.

Definition records (ks : list LineKind) : list LineKind :=
  List.filter is_record ks.

(** A track with a header or at least one point. *)
Definition has_content (t : Track) : bool :=
  (is_some (fst t) || nonempty (snd t))%bool.


(** The extension of the files [export_tracks] writes for a format. *)
Definition extension (f : OutputFormat) : string :=
  match f with RAW => "txt" | _ => format_value f end.



(** Value of a run of decimal digits written least significant first. *)
Fixpoint rev_val (s : string) : Z :=
  match s with
  | EmptyString => 0
  | String c s' => Chars.digit_val c + 10 * rev_val s'
  end.

(** * Properties *)

(** ** Strings *)

Module StrFacts.

Lemma span_eq p s :
  s = fst (Str.span p s) ++ snd (Str.span p s).
Proof.
  induction s as [|c s IH]; simpl; [reflexivity|].
  destruct (p c); simpl; [|reflexivity].
  destruct (Str.span p s) as [ds rest]; simpl in *. now rewrite <- IH.
Qed.

Lemma span_all p s : Str.all p (fst (Str.span p s)) = true.
Proof.
  induction s as [|c s IH]; simpl; [reflexivity|].
  destruct (p c) eqn:E; simpl; [|reflexivity].
  destruct (Str.span p s) as [ds rest]; simpl in *. now rewrite E.
Qed.

Lemma span_rest p s : Str.starts p (snd (Str.span p s)) = false.
Proof.
  induction s as [|c s IH]; simpl; [reflexivity|].
  destruct (p c) eqn:E; simpl; [|assumption].
  destruct (Str.span p s) as [ds rest]; simpl in *. assumption.
Qed.

Lemma span_app p ds rest :
  Str.all p ds = true -> Str.starts p rest = false ->
  Str.span p (ds ++ rest) = (ds, rest).
Proof.
  intros Hall Hrest. induction ds as [|c ds IH]; simpl in *.
  - destruct rest as [|a t]; simpl in *; [reflexivity|]. now rewrite Hrest.
  - apply andb_true_iff in Hall as [Hc Hds]. rewrite Hc, (IH Hds). reflexivity.
Qed.

Lemma length_app s t :
  String.length (s ++ t) = (String.length s + String.length t)%nat.
Proof. induction s as [|c s IH]; simpl; [reflexivity|]. now rewrite IH. Qed.

Lemma take_app s t : Str.take (String.length s) (s ++ t) = s.
Proof. induction s as [|c s IH]; simpl; [now destruct t|]. now rewrite IH. Qed.

Lemma take_consumed s t :
  Str.take (String.length (s ++ t) - String.length t) (s ++ t) = s.
Proof.
  rewrite length_app.
  replace (String.length s + String.length t - String.length t)%nat
    with (String.length s) by lia.
  apply take_app.
Qed.

Lemma app_assoc (s t u : string) : (s ++ t) ++ u = s ++ (t ++ u).
Proof. induction s as [|c s IH]; simpl; [reflexivity|]. now rewrite IH. Qed.

Lemma app_nil_r (s : string) : s ++ EmptyString = s.
Proof. induction s as [|c s IH]; simpl; [reflexivity|]. now rewrite IH. Qed.

Lemma is_number_all s : Str.is_number s = true -> Str.all Chars.is_digit s = true.
Proof. unfold Str.is_number. intros H. now apply andb_true_iff in H as [_ H]. Qed.

Lemma is_number_nonempty s : Str.is_number s = true -> Str.is_empty s = false.
Proof.
  unfold Str.is_number. intros H. apply andb_true_iff in H as [H _].
  now apply negb_true_iff in H.
Qed.

(** A digit is none of the separators of the three patterns. *)
Lemma digit_neq a c :
  Chars.is_digit a = true -> Chars.is_digit c = false -> Ascii.eqb a c = false.
Proof.
  intros Ha Hc. destruct (Ascii.eqb_spec a c) as [->|]; [congruence|reflexivity].
Qed.

End StrFacts.

(** ** The backtracking matcher on the three patterns *)

Module ReFacts.
Import Re StrFacts.

Lemma plus_greedy_span {A : Type} p (k : string -> option A) s :
  (forall a t, p a = true -> k (String a t) = None)
  \/ (forall s', k s' <> None) ->
  plus_greedy p s k =
  let '(ds, rest) := Str.span p s in
  if Str.is_empty ds then None else k rest.
Proof.
  intros Hk. induction s as [|c s IH]; simpl; [reflexivity|].
  destruct (p c) eqn:Hc; [|reflexivity].
  rewrite IH. pose proof (span_eq p s) as Heq.
  destruct (Str.span p s) as [ds rest] eqn:Hsp; simpl in *.
  destruct ds as [|d ds]; simpl in *.
  - now subst s.
  - destruct (k rest) eqn:Hrest; [reflexivity|].
    destruct Hk as [Hk|Hk]; [|now destruct (Hk rest)].
    assert (Hd : p d = true).
    { pose proof (span_all p s) as Hall. rewrite Hsp in Hall; simpl in Hall.
      now apply andb_true_iff in Hall as [Hd _]. }
    subst s. simpl. now apply Hk.
Qed.

Theorem run_scan r :
  forall k, det r k ->
  forall s caps,
    run r s caps k =
    match scan r s caps with
    | Some (s1, caps1) => k s1 caps1
    | None => None
    end.
Proof.
  induction r as [c|p|p|r1 IH1 r2 IH2|r1 IH1]; intros k Hdet s caps; simpl in *.
  - destruct s as [|a s]; [reflexivity|]. now destruct (Ascii.eqb a c).
  - destruct s as [|a s]; [reflexivity|]. now destruct (p a).
  - rewrite plus_greedy_span.
    + destruct (Str.span p s) as [ds rest]. now destruct (Str.is_empty ds).
    + destruct Hdet as [H|H]; [left|right]; intros; auto.
  - destruct Hdet as [H2 H1]. rewrite (IH1 _ H1).
    destruct (scan r1 s caps) as [[s1 caps1]|]; [|reflexivity].
    now apply IH2.
  - rewrite (IH1 _ (Hdet s)).
    now destruct (scan r1 s caps) as [[s1 caps1]|].
Qed.

Ltac settle :=
  repeat match goal with
         | |- _ /\ _ => split
         | |- True => exact I
         | |- forall _, _ => intro
         end;
  try (left; intros a t caps Ha; simpl;
       match goal with
       | |- context [Ascii.eqb a ?c] => now rewrite (digit_neq a c Ha eq_refl)
       end);
  try (right; intros; discriminate).

Lemma det_dms : det dms_re accept.
Proof. unfold dms_re, digits, accept. simpl. settle. Qed.

Lemma det_track : det track_re accept.
Proof. unfold track_re, dms_token, digits, accept. simpl. settle. Qed.

Lemma det_header : det header_re accept.
Proof. unfold header_re, digits, accept. simpl. settle. Qed.

Lemma match_groups_scan r s :
  det r accept ->
  match_groups r s = option_map snd (scan r s []).
Proof.
  intros H. unfold match_groups. rewrite (run_scan r accept H).
  now destruct (scan r s []) as [[s1 caps1]|].
Qed.

(** *** Reading a successful scan backwards *)

Lemma scan_seq_inv r1 r2 s caps s2 caps2 :
  scan (Seq r1 r2) s caps = Some (s2, caps2) ->
  exists s1 caps1,
    scan r1 s caps = Some (s1, caps1) /\ scan r2 s1 caps1 = Some (s2, caps2).
Proof.
  simpl. destruct (scan r1 s caps) as [[s1 caps1]|]; [|discriminate].
  intros H. now exists s1, caps1.
Qed.

Lemma scan_group_inv r s caps s1 caps' :
  scan (Group r) s caps = Some (s1, caps') ->
  exists caps1,
    scan r s caps = Some (s1, caps1)
    /\ caps' = (caps1 ++ [Str.take (String.length s - String.length s1) s])%list.
Proof.
  simpl. destruct (scan r s caps) as [[s1' caps1]|]; [|discriminate].
  intros [= -> <-]. now exists caps1.
Qed.

Lemma scan_lit_inv c s caps s1 caps1 :
  scan (Lit c) s caps = Some (s1, caps1) -> s = String c s1 /\ caps1 = caps.
Proof.
  simpl. destruct s as [|a s]; [discriminate|].
  destruct (Ascii.eqb_spec a c) as [->|]; [|discriminate]. now intros [= -> ->].
Qed.

Lemma scan_class_inv p s caps s1 caps1 :
  scan (Class p) s caps = Some (s1, caps1) ->
  exists a, s = String a s1 /\ p a = true /\ caps1 = caps.
Proof.
  simpl. destruct s as [|a s]; [discriminate|].
  destruct (p a) eqn:Ha; [|discriminate]. intros [= -> ->]. now exists a.
Qed.

Lemma scan_plus_inv p s caps s1 caps1 :
  scan (Plus p) s caps = Some (s1, caps1) ->
  exists ds, s = ds ++ s1 /\ Str.all p ds = true /\ Str.is_empty ds = false
             /\ Str.starts p s1 = false /\ caps1 = caps.
Proof.
  simpl. pose proof (span_eq p s) as Heq. pose proof (span_all p s) as Hall.
  pose proof (span_rest p s) as Hrest.
  destruct (Str.span p s) as [ds rest]; simpl in *.
  destruct (Str.is_empty ds) eqn:He; [discriminate|].
  intros [= -> ->]. now exists ds.
Qed.

(** *** Building a successful scan *)

Lemma scan_plus_app p ds rest caps :
  Str.all p ds = true -> Str.is_empty ds = false -> Str.starts p rest = false ->
  scan (Plus p) (ds ++ rest) caps = Some (rest, caps).
Proof. intros Ha He Hr. simpl. now rewrite (span_app p ds rest Ha Hr), He. Qed.

Lemma scan_digits_app ds rest caps :
  Str.is_number ds = true -> Str.starts Chars.is_digit rest = false ->
  scan digits (ds ++ rest) caps = Some (rest, caps).
Proof.
  intros Hn Hr. apply scan_plus_app; auto using is_number_all, is_number_nonempty.
Qed.

Lemma take_prefix pre s1 s :
  s = pre ++ s1 -> Str.take (String.length s - String.length s1) s = pre.
Proof. intros ->. apply take_consumed. Qed.

Lemma scan_group_digits_app ds rest caps :
  Str.is_number ds = true -> Str.starts Chars.is_digit rest = false ->
  scan (Group digits) (ds ++ rest) caps = Some (rest, (caps ++ [ds])%list).
Proof.
  intros Hn Hr. cbn [scan]. fold digits. rewrite (scan_digits_app ds rest caps Hn Hr).
  now rewrite take_consumed.
Qed.

Lemma scan_seq_some r1 r2 s caps s1 caps1 :
  scan r1 s caps = Some (s1, caps1) ->
  scan (Seq r1 r2) s caps = scan r2 s1 caps1.
Proof. intros H. simpl. now rewrite H. Qed.

Lemma scan_group_some r s caps s1 caps1 pre :
  scan r s caps = Some (s1, caps1) -> s = pre ++ s1 ->
  scan (Group r) s caps = Some (s1, (caps1 ++ [pre])%list).
Proof. intros H Hs. simpl. now rewrite H, (take_prefix pre s1 s Hs). Qed.

Lemma scan_lit_cons c s caps : scan (Lit c) (String c s) caps = Some (s, caps).
Proof. simpl. now rewrite Ascii.eqb_refl. Qed.

Lemma scan_class_cons p a s caps :
  p a = true -> scan (Class p) (String a s) caps = Some (s, caps).
Proof. intros H. simpl. now rewrite H. Qed.

Lemma scan_group_class_cons p a s caps :
  p a = true ->
  scan (Group (Class p)) (String a s) caps
  = Some (s, (caps ++ [String a EmptyString])%list).
Proof.
  intros H. apply (scan_group_some _ _ _ _ _ (String a EmptyString));
    [now apply scan_class_cons|reflexivity].
Qed.

(** One step along a concatenation whose first component is solved by
    one of the lemmas above. *)
Ltac scan_atom :=
  first [ apply scan_lit_cons
        | apply scan_group_class_cons; assumption
        | apply scan_class_cons; assumption
        | apply scan_group_digits_app; [assumption | first [reflexivity | assumption]]
        | apply scan_digits_app; [assumption | first [reflexivity | assumption]] ].

Ltac scan_steps :=
  repeat (erewrite scan_seq_some; [ | solve [scan_atom] ]); try solve [scan_atom].

End ReFacts.

(** ** The three grammars *)

Module Grammar.
Import Re StrFacts ReFacts.

Lemma dms_ok_fields sg deg mins si sf :
  dms_ok sg deg mins si sf = true ->
  Chars.is_sign sg = true /\ Str.is_number deg = true
  /\ Str.is_number mins = true /\ Str.is_number si = true
  /\ Str.is_number sf = true.
Proof.
  unfold dms_ok. intros H.
  repeat (apply andb_true_iff in H as [H ?]). auto.
Qed.

Lemma dms_text_app sg deg mins si sf rest :
  dms_text sg deg mins si sf ++ rest
  = String sg (deg ++ String "d" (mins ++ String "'" (si ++ String "."
      (sf ++ String dquote rest)))).
Proof.
  unfold dms_text, dq. simpl. repeat (rewrite app_assoc; simpl). reflexivity.
Qed.

Lemma scan_dms_token sg deg mins si sf rest caps :
  dms_ok sg deg mins si sf = true ->
  scan dms_token (dms_text sg deg mins si sf ++ rest) caps = Some (rest, caps).
Proof.
  intros H. apply dms_ok_fields in H as (Hs & Hd & Hm & Hi & Hf).
  rewrite dms_text_app. unfold dms_token. scan_steps.
Qed.

Lemma scan_dms_re sg deg mins si sf rest :
  dms_ok sg deg mins si sf = true ->
  scan dms_re (dms_text sg deg mins si sf ++ rest) []
  = Some (rest, [String sg EmptyString; deg; mins; si ++ "." ++ sf]).
Proof.
  intros H. apply dms_ok_fields in H as (Hs & Hd & Hm & Hi & Hf).
  rewrite dms_text_app. unfold dms_re. scan_steps.
  erewrite scan_seq_some.
  2:{ eapply scan_group_some with (pre := si ++ "." ++ sf).
      - scan_steps.
      - now rewrite app_assoc. }
  scan_steps.
Qed.

Lemma scan_digits_inv s caps s1 caps1 :
  scan digits s caps = Some (s1, caps1) ->
  exists ds, s = ds ++ s1 /\ Str.is_number ds = true
             /\ Str.starts Chars.is_digit s1 = false /\ caps1 = caps.
Proof.
  intros H. apply scan_plus_inv in H as (ds & Hs & Ha & He & Hr & Hc).
  exists ds. unfold Str.is_number. now rewrite He, Ha.
Qed.

Lemma scan_group_digits_inv s caps s1 caps1 :
  scan (Group digits) s caps = Some (s1, caps1) ->
  exists ds, s = ds ++ s1 /\ Str.is_number ds = true
             /\ Str.starts Chars.is_digit s1 = false
             /\ caps1 = (caps ++ [ds])%list.
Proof.
  intros H. apply scan_group_inv in H as (c & H & ->).
  apply scan_digits_inv in H as (ds & -> & Hn & Hr & ->).
  exists ds. now rewrite take_consumed.
Qed.

Lemma scan_group_class_inv p s caps s1 caps1 :
  scan (Group (Class p)) s caps = Some (s1, caps1) ->
  exists a, s = String a s1 /\ p a = true
            /\ caps1 = (caps ++ [String a EmptyString])%list.
Proof.
  intros H. apply scan_group_inv in H as (c & H & ->).
  apply scan_class_inv in H as (a & -> & Ha & ->).
  exists a. now rewrite (take_prefix (String a EmptyString) s1).
Qed.

Ltac scan_inv :=
  repeat match goal with
         | H : scan (Seq _ _) _ _ = Some _ |- _ =>
             apply scan_seq_inv in H; destruct H as (? & ? & ? & H)
         | H : scan (Group digits) _ _ = Some _ |- _ =>
             apply scan_group_digits_inv in H; destruct H as (? & ? & ? & ? & ?)
         | H : scan digits _ _ = Some _ |- _ =>
             apply scan_digits_inv in H; destruct H as (? & ? & ? & ? & ?)
         | H : scan (Group (Class _)) _ _ = Some _ |- _ =>
             apply scan_group_class_inv in H; destruct H as (? & ? & ? & ?)
         | H : scan (Group _) _ _ = Some _ |- _ =>
             apply scan_group_inv in H; destruct H as (? & H & ?)
         | H : scan (Lit _) _ _ = Some _ |- _ =>
             apply scan_lit_inv in H; destruct H as (? & ?)
         | H : scan (Class _) _ _ = Some _ |- _ =>
             apply scan_class_inv in H; destruct H as (? & ? & ? & ?)
         end; subst.

Ltac fields_ok :=
  rewrite !andb_true_iff; repeat split; assumption.

Lemma scan_dms_re_inv s rest caps :
  scan dms_re s [] = Some (rest, caps) ->
  exists sg deg mins si sf,
    dms_ok sg deg mins si sf = true
    /\ s = dms_text sg deg mins si sf ++ rest
    /\ caps = [String sg EmptyString; deg; mins; si ++ "." ++ sf].
Proof.
  unfold dms_re. intros H. scan_inv.
  do 5 eexists. split; [|split].
  2: rewrite dms_text_app; reflexivity.
  - unfold dms_ok. fields_ok.
  - cbn [List.app]. repeat f_equal.
    apply (take_prefix _ (String dquote rest)). now rewrite app_assoc.
Qed.

Lemma scan_dms_token_inv s rest caps caps' :
  scan dms_token s caps = Some (rest, caps') ->
  exists sg deg mins si sf,
    dms_ok sg deg mins si sf = true
    /\ s = dms_text sg deg mins si sf ++ rest
    /\ caps' = caps.
Proof.
  unfold dms_token. intros H. scan_inv.
  do 5 eexists. split; [|split].
  2: rewrite dms_text_app; reflexivity.
  - unfold dms_ok. fields_ok.
  - reflexivity.
Qed.

(** *** [parse_dms_coordinate] *)

Lemma sign_factor sg :
  (if String.eqb (String sg EmptyString) "-" then -1 else 1)
  = (if Ascii.eqb sg "-" then -1 else 1).
Proof. simpl. now destruct (Ascii.eqb sg "-"). Qed.

Lemma parse_dms_text sg deg mins si sf rest :
  dms_ok sg deg mins si sf = true ->
  parse_dms_coordinate (dms_text sg deg mins si sf ++ rest)
  = Some (dms_value sg deg mins (si ++ "." ++ sf)).
Proof.
  intros H. unfold parse_dms_coordinate.
  rewrite (match_groups_scan _ _ det_dms), (scan_dms_re _ _ _ _ _ _ H).
  cbn [option_map snd]. now rewrite sign_factor.
Qed.

Lemma parse_dms_inv s x :
  parse_dms_coordinate s = Some x ->
  exists sg deg mins si sf rest,
    dms_ok sg deg mins si sf = true
    /\ s = dms_text sg deg mins si sf ++ rest
    /\ x = dms_value sg deg mins (si ++ "." ++ sf).
Proof.
  unfold parse_dms_coordinate. rewrite (match_groups_scan _ _ det_dms).
  destruct (scan dms_re s []) as [[rest caps]|] eqn:Hscan; [|discriminate].
  apply scan_dms_re_inv in Hscan as (sg & deg & mins & si & sf & Hok & -> & ->).
  cbn [option_map snd]. rewrite sign_factor. intros [= <-].
  now exists sg, deg, mins, si, sf, rest.
Qed.

(** *** [int] *)

Lemma int_short s :
  Z.of_nat (String.length s) <= MAX_STR_DIGITS -> int s = Return (Str.value s).
Proof.
  intros H. unfold int.
  destruct (Z.ltb_spec MAX_STR_DIGITS (Z.of_nat (String.length s))); [lia|reflexivity].
Qed.

Lemma int_long s :
  MAX_STR_DIGITS < Z.of_nat (String.length s) -> int s = Raise ValueError.
Proof.
  intros H. unfold int.
  destruct (Z.ltb_spec MAX_STR_DIGITS (Z.of_nat (String.length s))); [reflexivity|lia].
Qed.

Lemma int_return s n :
  int s = Return n ->
  n = Str.value s /\ Z.of_nat (String.length s) <= MAX_STR_DIGITS.
Proof.
  unfold int.
  destruct (Z.ltb_spec MAX_STR_DIGITS (Z.of_nat (String.length s)));
    [discriminate|]. intros [= <-]. now split.
Qed.

Lemma int_raise s e :
  int s = Raise e ->
  e = ValueError /\ MAX_STR_DIGITS < Z.of_nat (String.length s).
Proof.
  unfold int.
  destruct (Z.ltb_spec MAX_STR_DIGITS (Z.of_nat (String.length s)));
    [|discriminate]. intros [= <-]. now split.
Qed.

(** *** [parse_track_line] *)

Lemma track_text_app lon lat alt rest :
  track_text lon lat alt ++ rest
  = lon ++ String "," (lat ++ String "," (alt ++ String ";" rest)).
Proof.
  unfold track_text. repeat (rewrite app_assoc; simpl). reflexivity.
Qed.

Lemma scan_track_re sg1 d1 m1 i1 f1 sg2 d2 m2 i2 f2 alt rest :
  dms_ok sg1 d1 m1 i1 f1 = true -> dms_ok sg2 d2 m2 i2 f2 = true ->
  Str.is_number alt = true ->
  scan track_re
    (track_text (dms_text sg1 d1 m1 i1 f1) (dms_text sg2 d2 m2 i2 f2) alt ++ rest) []
  = Some (rest, [dms_text sg1 d1 m1 i1 f1; dms_text sg2 d2 m2 i2 f2; alt]).
Proof.
  intros H1 H2 Ha. rewrite track_text_app. unfold track_re.
  erewrite scan_seq_some.
  2:{ eapply scan_group_some; [now apply scan_dms_token|reflexivity]. }
  scan_steps.
  erewrite scan_seq_some.
  2:{ eapply scan_group_some; [now apply scan_dms_token|reflexivity]. }
  scan_steps.
Qed.

Lemma scan_track_re_inv s rest caps :
  scan track_re s [] = Some (rest, caps) ->
  exists sg1 d1 m1 i1 f1 sg2 d2 m2 i2 f2 alt,
    dms_ok sg1 d1 m1 i1 f1 = true /\ dms_ok sg2 d2 m2 i2 f2 = true
    /\ Str.is_number alt = true
    /\ s = track_text (dms_text sg1 d1 m1 i1 f1) (dms_text sg2 d2 m2 i2 f2) alt ++ rest
    /\ caps = [dms_text sg1 d1 m1 i1 f1; dms_text sg2 d2 m2 i2 f2; alt].
Proof.
  unfold track_re. intros H.
  apply scan_seq_inv in H as (s1 & c1 & Hlon & H).
  apply scan_group_inv in Hlon as (c1' & Hlon & ->).
  apply scan_dms_token_inv in Hlon
    as (sg1 & d1 & m1 & i1 & f1 & Hok1 & -> & ->).
  apply scan_seq_inv in H as (s2 & c2 & Hc & H).
  apply scan_lit_inv in Hc as (-> & ->).
  apply scan_seq_inv in H as (s3 & c3 & Hlat & H).
  apply scan_group_inv in Hlat as (c3' & Hlat & ->).
  apply scan_dms_token_inv in Hlat
    as (sg2 & d2 & m2 & i2 & f2 & Hok2 & -> & ->).
  scan_inv.
  exists sg1, d1, m1, i1, f1, sg2, d2, m2, i2, f2. eexists.
  repeat split; try eassumption.
  - now rewrite track_text_app.
  - cbn [List.app]. now rewrite !take_consumed.
Qed.

Lemma parse_dms_exact sg deg mins si sf :
  dms_ok sg deg mins si sf = true ->
  parse_dms_coordinate (dms_text sg deg mins si sf)
  = Some (dms_value sg deg mins (si ++ "." ++ sf)).
Proof.
  intros H. rewrite <- (app_nil_r (dms_text sg deg mins si sf)) at 1.
  now apply parse_dms_text.
Qed.

Lemma parse_track_text sg1 d1 m1 i1 f1 sg2 d2 m2 i2 f2 alt rest :
  dms_ok sg1 d1 m1 i1 f1 = true -> dms_ok sg2 d2 m2 i2 f2 = true ->
  Str.is_number alt = true ->
  parse_track_line
    (track_text (dms_text sg1 d1 m1 i1 f1) (dms_text sg2 d2 m2 i2 f2) alt ++ rest)
  = (a <- int alt ;;
     Return (Some (dms_value sg1 d1 m1 (i1 ++ "." ++ f1),
                   dms_value sg2 d2 m2 (i2 ++ "." ++ f2), a))).
Proof.
  intros H1 H2 Ha. unfold parse_track_line.
  rewrite (match_groups_scan _ _ det_track), (scan_track_re _ _ _ _ _ _ _ _ _ _ _ _ H1 H2 Ha).
  cbn [option_map snd].
  now rewrite (parse_dms_exact _ _ _ _ _ H1), (parse_dms_exact _ _ _ _ _ H2).
Qed.

Lemma parse_track_inv s :
  parse_track_line s <> Return None ->
  exists sg1 d1 m1 i1 f1 sg2 d2 m2 i2 f2 alt rest,
    dms_ok sg1 d1 m1 i1 f1 = true /\ dms_ok sg2 d2 m2 i2 f2 = true
    /\ Str.is_number alt = true
    /\ s = track_text (dms_text sg1 d1 m1 i1 f1) (dms_text sg2 d2 m2 i2 f2) alt ++ rest.
Proof.
  unfold parse_track_line. rewrite (match_groups_scan _ _ det_track).
  destruct (scan track_re s []) as [[rest caps]|] eqn:Hscan; [|now intros []].
  apply scan_track_re_inv in Hscan
    as (sg1 & d1 & m1 & i1 & f1 & sg2 & d2 & m2 & i2 & f2 & alt
        & H1 & H2 & Ha & -> & ->).
  intros _.
  now exists sg1, d1, m1, i1, f1, sg2, d2, m2, i2, f2, alt, rest.
Qed.

(** *** [parse_header_line] *)

Lemma header_ok_fields rn f1 v1 f2 v2 ts tot :
  header_ok rn f1 v1 f2 v2 ts tot = true ->
  Str.is_number rn = true /\ Chars.is_lower f1 = true
  /\ Str.is_number v1 = true /\ Chars.is_lower f2 = true
  /\ Str.is_number v2 = true /\ Str.is_number ts = true
  /\ Str.is_number tot = true.
Proof.
  unfold header_ok. rewrite !andb_true_iff. intros H. tauto.
Qed.

Lemma header_text_app rn f1 v1 f2 v2 ts tot rest :
  header_text rn f1 v1 f2 v2 ts tot ++ rest
  = String "n" (rn ++ String "," (String f1 (v1 ++ String "," (String f2
      (v2 ++ String ";" (String "t" (ts ++ String "," (String "N"
        (tot ++ rest))))))))).
Proof.
  unfold header_text. simpl. repeat (rewrite app_assoc; simpl). reflexivity.
Qed.

Lemma scan_header_re rn f1 v1 f2 v2 ts tot rest :
  header_ok rn f1 v1 f2 v2 ts tot = true ->
  Str.starts Chars.is_digit rest = false ->
  scan header_re (header_text rn f1 v1 f2 v2 ts tot ++ rest) []
  = Some (rest, [rn; String f1 EmptyString; v1; String f2 EmptyString; v2; ts; tot]).
Proof.
  intros H Hrest.
  apply header_ok_fields in H as (Hrn & Hf1 & Hv1 & Hf2 & Hv2 & Hts & Htot).
  rewrite header_text_app. unfold header_re. scan_steps.
Qed.

Lemma scan_header_re_inv s rest caps :
  scan header_re s [] = Some (rest, caps) ->
  exists rn f1 v1 f2 v2 ts tot,
    header_ok rn f1 v1 f2 v2 ts tot = true
    /\ Str.starts Chars.is_digit rest = false
    /\ s = header_text rn f1 v1 f2 v2 ts tot ++ rest
    /\ caps = [rn; String f1 EmptyString; v1; String f2 EmptyString; v2; ts; tot].
Proof.
  unfold header_re. intros H. scan_inv.
  do 7 eexists. split; [|split; [|split]].
  3: rewrite header_text_app; reflexivity.
  - unfold header_ok. fields_ok.
  - assumption.
  - reflexivity.
Qed.

Lemma parse_header_text rn f1 v1 f2 v2 ts tot rest :
  header_ok rn f1 v1 f2 v2 ts tot = true ->
  Str.starts Chars.is_digit rest = false ->
  parse_header_line (header_text rn f1 v1 f2 v2 ts tot ++ rest)
  = header_from_groups rn (String f1 EmptyString) v1 (String f2 EmptyString)
                       v2 ts tot.
Proof.
  intros H Hrest. unfold parse_header_line.
  now rewrite (match_groups_scan _ _ det_header), (scan_header_re _ _ _ _ _ _ _ _ H Hrest).
Qed.

Lemma parse_header_inv s :
  parse_header_line s <> Return None ->
  exists rn f1 v1 f2 v2 ts tot rest,
    header_ok rn f1 v1 f2 v2 ts tot = true
    /\ Str.starts Chars.is_digit rest = false
    /\ s = header_text rn f1 v1 f2 v2 ts tot ++ rest.
Proof.
  unfold parse_header_line. rewrite (match_groups_scan _ _ det_header).
  destruct (scan header_re s []) as [[rest caps]|] eqn:Hscan; [|now intros []].
  apply scan_header_re_inv in Hscan
    as (rn & f1 & v1 & f2 & v2 & ts & tot & Hok & Hrest & -> & ->).
  intros _. now exists rn, f1, v1, f2, v2, ts, tot, rest.
Qed.

Lemma header_from_groups_not_none rn f1 v1 f2 v2 ts tot :
  header_from_groups rn f1 v1 f2 v2 ts tot <> Return None.
Proof.
  unfold header_from_groups.
  repeat match goal with
         | |- context [if ?b then _ else _] => destruct b
         end;
    unfold bind;
    repeat match goal with
           | |- context [scaled ?v] => destruct (scaled v)
           end;
    repeat match goal with
           | |- context [int ?v] => destruct (int v)
           end; discriminate.
Qed.

Lemma eqb_single a c :
  String.eqb (String a EmptyString) (String c EmptyString) = Ascii.eqb a c.
Proof. simpl. now destruct (Ascii.eqb a c). Qed.

Lemma pair_neq (a b c d : ascii) :
  (a, b) <> (c, d) -> (Ascii.eqb a c && Ascii.eqb b d)%bool = false.
Proof.
  intros H. destruct (Ascii.eqb_spec a c) as [->|]; [|reflexivity].
  destruct (Ascii.eqb_spec b d) as [->|]; [|reflexivity]. now destruct H.
Qed.

Lemma parse_header_exact rn f1 v1 f2 v2 ts tot :
  header_ok rn f1 v1 f2 v2 ts tot = true ->
  parse_header_line (header_text rn f1 v1 f2 v2 ts tot)
  = header_from_groups rn (String f1 EmptyString) v1 (String f2 EmptyString)
                       v2 ts tot.
Proof.
  intros H. rewrite <- (app_nil_r (header_text rn f1 v1 f2 v2 ts tot)).
  now apply parse_header_text.
Qed.

Lemma header_from_groups_some rn f1 v1 f2 v2 ts tot h :
  header_from_groups rn f1 v1 f2 v2 ts tot = Return (Some h) ->
  int rn = Return (record_num h) /\ timestamp h = stamp ts
  /\ int tot = Return (total_records h).
Proof.
  unfold header_from_groups.
  match goal with
  | |- bind ?c _ = _ -> _ => destruct c as [[[k lat] lon]|e]
  end; cbn [bind]; [|discriminate].
  destruct (int rn) as [n|e]; cbn [bind]; [|discriminate].
  destruct (int tot) as [t|e]; cbn [bind]; [|discriminate].
  now intros [= <-].
Qed.

Lemma header_not_track s :
  parse_header_line s <> Return None -> Str.starts (Ascii.eqb "n") s = true.
Proof.
  intros H. apply parse_header_inv in H
    as (rn & f1 & v1 & f2 & v2 & ts & tot & rest & _ & _ & ->).
  now rewrite header_text_app.
Qed.

Lemma stamp_12 y mo d hh mi :
  String.length y = 4%nat -> String.length mo = 2%nat ->
  String.length d = 2%nat -> String.length hh = 2%nat ->
  String.length mi = 2%nat ->
  stamp (y ++ mo ++ d ++ hh ++ mi)
  = y ++ "-" ++ mo ++ "-" ++ d ++ " " ++ hh ++ ":" ++ mi.
Proof.
  intros Hy Hmo Hd Hhh Hmi.
  destruct y as [|y1 [|y2 [|y3 [|y4 [|? ?]]]]]; try discriminate.
  destruct mo as [|o1 [|o2 [|? ?]]]; try discriminate.
  destruct d as [|d1 [|d2 [|? ?]]]; try discriminate.
  destruct hh as [|h1 [|h2 [|? ?]]]; try discriminate.
  destruct mi as [|m1 [|m2 [|? ?]]]; try discriminate.
  reflexivity.
Qed.

End Grammar.

(** ** Floats: the sign factor *)

Module FloatFacts.

Lemma round_aux_opp sx mx ex lx :
  binary_round_aux prec emax (negb sx) mx ex lx
  = opp (binary_round_aux prec emax sx mx ex lx).
Proof.
  unfold binary_round_aux.
  destruct (shr_fexp prec emax mx ex lx) as [mrs' e'].
  destruct (shr_fexp prec emax _ e' loc_Exact) as [mrs'' e''].
  destruct (shr_m mrs''); [reflexivity| |reflexivity].
  now destruct (e'' <=? emax - prec).
Qed.

(** Multiplying by [-1] only flips the sign of what multiplying by [1]
    gives. *)
Lemma mul_minus_one x : mul (const (-1)) x = opp (mul (const 1) x).
Proof.
  destruct x as [s|s| |s m e]; try reflexivity.
  change (const (-1)) with (S754_finite true 4503599627370496 (-52)).
  change (const 1) with (S754_finite false 4503599627370496 (-52)).
  unfold mul, SFmul. exact (round_aux_opp (xorb false s) _ _ _).
Qed.

End FloatFacts.

(** ** The range of the integer to float conversion *)

Module FloatRange.

Lemma digits2_bounds p :
  2 ^ (Zpos (digits2_pos p) - 1) <= Zpos p < 2 ^ Zpos (digits2_pos p).
Proof.
  induction p as [p IH|p IH|]; cbn [digits2_pos].
  - rewrite Pos2Z.inj_succ, Pos2Z.inj_xI.
    replace (Z.succ (Zpos (digits2_pos p)) - 1) with (Z.succ (Zpos (digits2_pos p) - 1)) by lia.
    rewrite !Z.pow_succ_r by lia. destruct IH as [H1 H2]. revert H1 H2.
    generalize (2 ^ (Zpos (digits2_pos p) - 1)) (2 ^ Zpos (digits2_pos p)). intros; lia.
  - rewrite Pos2Z.inj_succ. change (Zpos p~0) with (2 * Zpos p).
    replace (Z.succ (Zpos (digits2_pos p)) - 1) with (Z.succ (Zpos (digits2_pos p) - 1)) by lia.
    rewrite !Z.pow_succ_r by lia. destruct IH as [H1 H2]. revert H1 H2.
    generalize (2 ^ (Zpos (digits2_pos p) - 1)) (2 ^ Zpos (digits2_pos p)). intros; lia.
  - cbn. lia.
Qed.

(** A natural number below [2^k] has at most [k] binary digits. *)
Lemma Zdigits2_le x k : 0 <= k -> 0 <= x < 2 ^ k -> Zdigits2 x <= k.
Proof.
  intros Hk [H0 Hx]. destruct x as [|p|p]; cbn [Zdigits2]; try lia.
  pose proof (digits2_bounds p) as [Hlo _].
  destruct (Z.le_gt_cases (Zpos (digits2_pos p)) k) as [|Hgt]; [assumption|].
  assert (2 ^ k <= 2 ^ (Zpos (digits2_pos p) - 1)) by (apply Z.pow_le_mono_r; lia).
  lia.
Qed.

Lemma shr_1_half mrs : 0 <= shr_m mrs -> shr_m (shr_1 mrs) = shr_m mrs / 2 .
Proof.
  destruct mrs as [m r s]. cbn [shr_m]. intros H. unfold shr_1.
  destruct m as [|[p|p|]|p]; cbn [shr_m]; try lia; try reflexivity.
  - apply Z.div_unique with 1; [lia|]. now change (Zpos p~1) with (2 * Zpos p + 1).
  - apply Z.div_unique with 0; [lia|]. change (Zpos p~0) with (2 * Zpos p). lia.
Qed.

Lemma iter_shr_div n :
  forall mrs, 0 <= shr_m mrs ->
    shr_m (iter_pos shr_1 n mrs) = shr_m mrs / 2 ^ Zpos n.
Proof.
  assert (Hpos : forall k, 0 < 2 ^ Zpos k) by (intros; apply Z.pow_pos_nonneg; lia).
  assert (Hnn : forall a k, 0 <= a -> 0 <= a / 2 ^ Zpos k)
    by (intros; apply Z.div_pos; auto).
  induction n as [n IH|n IH|]; intros mrs H; cbn [iter_pos].
  - assert (H1 : 0 <= shr_m (shr_1 mrs)) by (rewrite shr_1_half by assumption; apply Z.div_pos; lia).
    rewrite IH; rewrite IH; try assumption.
    2:{ apply Hnn. assumption. }
    rewrite shr_1_half by assumption.
    rewrite !Z.div_div by (pose proof (Hpos n); lia).
    f_equal. rewrite Pos2Z.inj_xI. rewrite Z.pow_add_r, Z.pow_mul_r by lia.
    change (2 ^ 2) with 4. change (2 ^ 1) with 2.
    replace (4 ^ Zpos n) with (2 ^ Zpos n * 2 ^ Zpos n).
    + lia.
    + rewrite <- Z.pow_add_r by lia. replace (Zpos n + Zpos n) with (2 * Zpos n) by lia.
      now rewrite Z.pow_mul_r by lia.
  - rewrite IH; rewrite IH; try assumption.
    2:{ apply Hnn. assumption. }
    rewrite !Z.div_div by (pose proof (Hpos n); lia).
    f_equal. rewrite Pos2Z.inj_xO. rewrite <- Z.pow_add_r by lia. f_equal. lia.
  - rewrite shr_1_half by assumption. reflexivity.
Qed.

Lemma shr_spec m l e n :
  0 <= m -> 0 <= n ->
  shr_m (fst (shr (shr_record_of_loc m l) e n)) = m / 2 ^ n
  /\ snd (shr (shr_record_of_loc m l) e n) = e + n.
Proof.
  intros Hm Hn.
  assert (Hrec : shr_m (shr_record_of_loc m l) = m) by (destruct l as [|[]]; reflexivity).
  unfold shr. destruct n as [|p|p]; cbn [fst snd]; try lia.
  - rewrite Hrec. split; [now rewrite Z.div_1_r|lia].
  - split; [|reflexivity]. rewrite iter_shr_div; rewrite Hrec; auto.
Qed.

Lemma round_aux_finite sx m e l :
  e <= fexp prec emax (Zpos (digits2_pos m) + e) ->
  Zpos (digits2_pos m) + e <= 1023 ->
  forall s', binary_round_aux prec emax sx (Zpos m) e l <> S754_infinity s'.
Proof.
  intros Hal Hd s'. unfold binary_round_aux, shr_fexp.
  cbn [Zdigits2].
  set (D := Zpos (digits2_pos m)) in *.
  set (n1 := fexp prec emax (D + e) - e).
  assert (Hn1 : 0 <= n1) by (unfold n1; lia).
  destruct (shr_spec (Zpos m) l e n1 ltac:(lia) Hn1) as [Hm1 He1].
  destruct (shr (shr_record_of_loc (Zpos m) l) e n1) as [mrs' e'].
  cbn [fst snd] in Hm1, He1.
  assert (Hfexp : forall x, fexp prec emax x = Z.max (x - 53) (-1074)) by reflexivity.
  assert (Hm1b : 0 <= shr_m mrs' < 2 ^ 53).
  { rewrite Hm1. pose proof (digits2_bounds m) as [_ Hhi]. fold D in Hhi.
    assert (0 < 2 ^ n1) by (apply Z.pow_pos_nonneg; lia).
    split; [apply Z.div_pos; lia|].
    apply Z.div_lt_upper_bound; [assumption|].
    rewrite <- Z.pow_add_r by lia.
    eapply Z.lt_le_trans; [exact Hhi|]. apply Z.pow_le_mono_r; [lia|].
    unfold n1. rewrite Hfexp. lia. }
  set (m2 := round_nearest_even (shr_m mrs') (loc_of_shr_record mrs')).
  assert (Hm2 : 0 <= m2 <= 2 ^ 53).
  { unfold m2, round_nearest_even.
    destruct (loc_of_shr_record mrs') as [|[]]; try lia.
    destruct (Z.even (shr_m mrs')); lia. }
  assert (Hd2 : Zdigits2 m2 <= 54).
  { apply Zdigits2_le; [lia|]. change (2 ^ 54) with (2 * 2 ^ 53). lia. }
  assert (Hd2' : 0 <= Zdigits2 m2).
  { destruct m2; cbn; lia. }
  set (n2 := fexp prec emax (Zdigits2 m2 + e') - e').
  assert (He' : e' <= 970) by (rewrite He1; unfold n1; rewrite Hfexp; lia).
  assert (He'' : snd (shr (shr_record_of_loc m2 loc_Exact) e' n2) <= 971).
  { unfold shr. destruct n2 as [|p|p] eqn:En2; cbn [snd]; try lia.
    rewrite <- En2. unfold n2. rewrite Hfexp. lia. }
  destruct (shr (shr_record_of_loc m2 loc_Exact) e' n2) as [mrs'' e''].
  cbn [snd] in He''.
  destruct (shr_m mrs''); try discriminate.
  change (emax - prec) with 971. destruct (Z.leb_spec e'' 971); [discriminate|lia].
Qed.

Lemma digits2_iter m d :
  digits2_pos (Pos.iter xO m d) = (digits2_pos m + d)%positive.
Proof.
  induction d as [|d IH] using Pos.peano_ind.
  - cbn. now rewrite Pos.add_1_r.
  - rewrite Pos.iter_succ. cbn [digits2_pos]. rewrite IH. lia.
Qed.

Lemma binary_round_finite sx m e :
  Zpos (digits2_pos m) + e <= 1023 ->
  forall s', binary_round prec emax sx m e <> S754_infinity s'.
Proof.
  intros Hd s'. unfold binary_round, shl_align.
  assert (Hfexp : forall x, fexp prec emax x = Z.max (x - 53) (-1074)) by reflexivity.
  destruct (fexp prec emax (Zpos (digits2_pos m) + e) - e) as [|d|d] eqn:En.
  - apply round_aux_finite; [lia|assumption].
  - apply round_aux_finite; [lia|assumption].
  - assert (Hsum : Zpos (digits2_pos (Pos.iter xO m d))
                   + fexp prec emax (Zpos (digits2_pos m) + e)
                   = Zpos (digits2_pos m) + e)
      by (rewrite digits2_iter; lia).
    apply round_aux_finite; rewrite Hsum; [lia|assumption].
Qed.

Lemma digits_below m :
  Zpos m < 2 ^ 1023 -> Zpos (digits2_pos m) + 0 <= 1023.
Proof.
  intros Hm. rewrite Z.add_0_r.
  apply (Zdigits2_le (Zpos m) 1023); [discriminate|].
  split; [apply Pos2Z.is_nonneg|assumption].
Qed.

(** Every integer of absolute value below [2^1023] converts. *)
Lemma of_int_returns z :
  - 2 ^ 1023 < z < 2 ^ 1023 -> exists x, of_int z = Return x.
Proof.
  intros Hz. unfold of_int, round_int, binary_normalize.
  destruct z as [|m|m].
  - eexists; reflexivity.
  - assert (Hm : Zpos m < 2 ^ 1023) by apply Hz.
    pose proof (binary_round_finite false m 0) as H.
    destruct (binary_round prec emax false m 0) as [s0|s0| |s0 m0 e0];
      [eexists; reflexivity| |eexists; reflexivity|eexists; reflexivity].
    exfalso. apply (H (digits_below m Hm) s0). reflexivity.
  - assert (Hm : Zpos m < 2 ^ 1023).
    { destruct Hz as [Hz _]. apply Z.opp_lt_mono.
      now rewrite Pos2Z.opp_pos. }
    pose proof (binary_round_finite true m 0) as H.
    destruct (binary_round prec emax true m 0) as [s0|s0| |s0 m0 e0];
      [eexists; reflexivity| |eexists; reflexivity|eexists; reflexivity].
    exfalso. apply (H (digits_below m Hm) s0). reflexivity.
Qed.

Lemma digit_val_range c :
  Chars.is_digit c = true -> 0 <= Chars.digit_val c <= 9.
Proof.
  unfold Chars.is_digit, Chars.digit_val. intros H.
  apply andb_true_iff in H as [H1 H2].
  apply N.leb_le in H1, H2. lia.
Qed.

Lemma digits_val_bounds s :
  forall acc,
    Str.all Chars.is_digit s = true -> 0 <= acc ->
    acc * 10 ^ Z.of_nat (String.length s)
    <= Str.digits_val acc s
    < (acc + 1) * 10 ^ Z.of_nat (String.length s).
Proof.
  induction s as [|c s IH]; intros acc Hall Hacc; cbn [Str.digits_val String.length].
  - cbn. lia.
  - cbn [Str.all] in Hall. apply andb_true_iff in Hall as [Hc Hs].
    pose proof (digit_val_range c Hc) as Hd.
    specialize (IH (10 * acc + Chars.digit_val c) Hs ltac:(lia)).
    rewrite Nat2Z.inj_succ, Z.pow_succ_r by lia.
    assert (Hpow : 0 < 10 ^ Z.of_nat (String.length s))
      by (apply Z.pow_pos_nonneg; lia).
    revert IH Hpow. generalize (10 ^ Z.of_nat (String.length s)).
    generalize (Str.digits_val (10 * acc + Chars.digit_val c) s).
    intros v t IH Hpow. nia.
Qed.

(** The value of a run of [n] digits is below [10^n]. *)
Lemma value_bounds s :
  Str.all Chars.is_digit s = true ->
  0 <= Str.value s < 10 ^ Z.of_nat (String.length s).
Proof.
  intros H. pose proof (digits_val_bounds s 0 H ltac:(lia)) as Hb.
  unfold Str.value. lia.
Qed.

Lemma scaled_returns v :
  Str.all Chars.is_digit v = true -> (String.length v <= 307)%nat ->
  exists x, scaled v = Return x.
Proof.
  intros Hd Hlen. unfold scaled.
  rewrite Grammar.int_short by (unfold MAX_STR_DIGITS; lia). cbn [bind].
  destruct (of_int_returns (Str.value v)) as (x & Hx).
  - pose proof (value_bounds v Hd) as Hb.
    assert (H1 : 10 ^ Z.of_nat (String.length v) <= 10 ^ 307)
      by (apply Z.pow_le_mono_r; lia).
    assert (H2 : 10 ^ 307 < 2 ^ 1023) by (apply Z.ltb_lt; vm_compute; reflexivity).
    destruct Hb as [Hb1 Hb2]. split.
    + eapply Z.lt_le_trans; [|exact Hb1]. apply Z.opp_neg_pos.
      apply Z.pow_pos_nonneg; [reflexivity|discriminate].
    + eapply Z.lt_trans; [|exact H2]. eapply Z.lt_le_trans; eassumption.
  - rewrite Hx. cbn [bind]. now eexists.
Qed.

End FloatRange.

(** ** Where the decoders cannot raise *)

Module HeaderRange.

Lemma rev_onto_length s :
  forall acc,
    String.length (Str.rev_onto s acc) = (String.length s + String.length acc)%nat.
Proof.
  induction s as [|c s IH]; intros acc; cbn [Str.rev_onto String.length]; [reflexivity|].
  rewrite IH. cbn [String.length]. lia.
Qed.

Lemma lstrip_length s : (String.length (Str.lstrip s) <= String.length s)%nat.
Proof.
  induction s as [|c s IH]; cbn [Str.lstrip]; [lia|].
  destruct (Chars.is_space c); cbn [String.length]; lia.
Qed.

Lemma strip_length s : (String.length (Str.strip s) <= String.length s)%nat.
Proof.
  unfold Str.strip, Str.rstrip, Str.rev.
  rewrite rev_onto_length. cbn [String.length].
  pose proof (lstrip_length (Str.rev_onto (Str.lstrip s) EmptyString)) as H1.
  rewrite rev_onto_length in H1. cbn [String.length] in H1.
  pose proof (lstrip_length s). lia.
Qed.

Lemma header_text_length rn f1 v1 f2 v2 ts tot rest :
  String.length (header_text rn f1 v1 f2 v2 ts tot ++ rest)
  = (9 + String.length rn + String.length v1 + String.length v2
     + String.length ts + String.length tot + String.length rest)%nat.
Proof.
  rewrite Grammar.header_text_app. cbn [String.length].
  repeat (rewrite StrFacts.length_app; cbn [String.length]). lia.
Qed.

Lemma header_returns rn f1 v1 f2 v2 ts tot rest :
  header_ok rn f1 v1 f2 v2 ts tot = true ->
  Str.starts Chars.is_digit rest = false ->
  (String.length v1 <= 307)%nat -> (String.length v2 <= 307)%nat ->
  Z.of_nat (String.length rn) <= MAX_STR_DIGITS ->
  Z.of_nat (String.length tot) <= MAX_STR_DIGITS ->
  exists h,
    parse_header_line (header_text rn f1 v1 f2 v2 ts tot ++ rest) = Return (Some h).
Proof.
  intros Hok Hrest H1 H2 Hrn Htot.
  rewrite (Grammar.parse_header_text _ _ _ _ _ _ _ _ Hok Hrest).
  apply Grammar.header_ok_fields in Hok as (_ & _ & Hv1 & _ & Hv2 & _ & _).
  destruct (FloatRange.scaled_returns v1 (StrFacts.is_number_all _ Hv1) H1) as (x1 & E1).
  destruct (FloatRange.scaled_returns v2 (StrFacts.is_number_all _ Hv2) H2) as (x2 & E2).
  unfold header_from_groups.
  rewrite E1, E2, (Grammar.int_short rn Hrn), (Grammar.int_short tot Htot).
  repeat match goal with
         | |- context [if ?b then _ else _] => destruct b
         end; cbn [bind]; eexists; reflexivity.
Qed.

Lemma track_text_length lon lat alt rest :
  (String.length alt
   <= String.length (track_text lon lat alt ++ rest))%nat.
Proof.
  rewrite Grammar.track_text_app.
  repeat (rewrite StrFacts.length_app; cbn [String.length]). lia.
Qed.

(** A line on which a decoder raises is longer than 307 characters. *)
Lemma failing_line_is_long raw e :
  classify raw = Fails e -> (307 < String.length raw)%nat.
Proof.
  unfold classify.
  destruct (Str.is_empty (Str.strip raw) || String.eqb (Str.strip raw) "!")%bool;
    [discriminate|].
  pose proof (strip_length raw) as Hlen.
  destruct (parse_header_line (Str.strip raw)) as [[h|]|e'] eqn:E; try discriminate.
  - destruct (parse_track_line (Str.strip raw)) as [[pt|]|e'] eqn:Et;
      try discriminate.
    intros _.
    assert (Hn : parse_track_line (Str.strip raw) <> Return None)
      by (rewrite Et; discriminate).
    apply Grammar.parse_track_inv in Hn
      as (sg1 & d1 & m1 & i1 & f1 & sg2 & d2 & m2 & i2 & f2 & alt & rest
          & H1 & H2 & Ha & Hs).
    rewrite Hs, (Grammar.parse_track_text _ _ _ _ _ _ _ _ _ _ _ _ H1 H2 Ha) in Et.
    destruct (int alt) as [a|ea] eqn:Ei; cbn [bind] in Et; [discriminate|].
    apply Grammar.int_raise in Ei as [_ Hlong]. unfold MAX_STR_DIGITS in Hlong.
    rewrite Hs in Hlen.
    pose proof (track_text_length (dms_text sg1 d1 m1 i1 f1)
                  (dms_text sg2 d2 m2 i2 f2) alt rest). lia.
  - intros _.
    assert (Hn : parse_header_line (Str.strip raw) <> Return None)
      by (rewrite E; discriminate).
    apply Grammar.parse_header_inv in Hn
      as (rn & f1 & v1 & f2 & v2 & ts & tot & rest & Hok & Hrest & Hs).
    rewrite Hs, header_text_length in Hlen.
    destruct (Nat.le_gt_cases (String.length raw) 307) as [Hshort|]; [|assumption].
    exfalso.
    destruct (header_returns rn f1 v1 f2 v2 ts tot rest Hok Hrest) as (h & Hh);
      try (unfold MAX_STR_DIGITS; lia).
    rewrite <- Hs, E in Hh. discriminate.
Qed.

End HeaderRange.

(** ** Claims on the line decoders *)

(** C4.  A token that starts with [<sign><degrees>d<minutes>'<seconds.frac>Q]
    decodes to [sign * (degrees + minutes/60 + seconds/3600)], the factor
    being [-1] exactly for the sign character [-] and [1] otherwise; the sum
    does not depend on the sign, so the result for [-] is the negation of
    the result for [+]; any other token decodes to [None].  The pattern is
    anchored at the start only, as [re.match] is. *)
Theorem parse_dms_coordinate_formula (tok : string) :
  (forall sg deg mins si sf rest,
      dms_ok sg deg mins si sf = true ->
      tok = dms_text sg deg mins si sf ++ rest ->
      parse_dms_coordinate tok
      = Some (mul (const (if Ascii.eqb sg "-" then -1 else 1))
                  (add (add (of_string deg) (div (of_string mins) (const 60)))
                       (div (of_string (si ++ "." ++ sf)) (const 3600))))
      /\ parse_dms_coordinate (dms_text "-" deg mins si sf ++ rest)
         = option_map opp (parse_dms_coordinate (dms_text "+" deg mins si sf ++ rest)))
  /\ (~ is_dms tok -> parse_dms_coordinate tok = None).
Proof.
  split.
  - intros sg deg mins si sf rest Hok ->. split.
    + now apply Grammar.parse_dms_text.
    + apply Grammar.dms_ok_fields in Hok as (_ & Hd & Hm & Hi & Hf).
      assert (Hp : forall c, Chars.is_sign c = true -> dms_ok c deg mins si sf = true).
      { intros c Hc. unfold dms_ok. now rewrite Hc, Hd, Hm, Hi, Hf. }
      rewrite !Grammar.parse_dms_text by (apply Hp; reflexivity).
      cbn [option_map]. unfold dms_value.
      change (Ascii.eqb "-" "-") with true. change (Ascii.eqb "+" "-") with false.
      cbv iota. now rewrite FloatFacts.mul_minus_one.
  - intros Hno. destruct (parse_dms_coordinate tok) as [x|] eqn:E; [|reflexivity].
    exfalso. apply Hno.
    apply Grammar.parse_dms_inv in E
      as (sg & deg & mins & si & sf & rest & Hok & Htok & _).
    now exists sg, deg, mins, si, sf, rest.
Qed.

Lemma parse_dms_coordinate_formula_witness :
  parse_dms_coordinate ("-008d35'28.86540" ++ dq)
  = Some (S754_finite true 4836500926751119 (-49))
  /\ parse_dms_coordinate "8d35'28.86540" = None.
Proof.
  split.
  - refine (eq_trans
      (proj1 (proj1 (parse_dms_coordinate_formula ("-008d35'28.86540" ++ dq))
                "-"%char "008" "35" "28" "86540" EmptyString eq_refl eq_refl)) _).
    vm_compute. reflexivity.
  - apply (proj2 (parse_dms_coordinate_formula "8d35'28.86540")).
    intros (sg & deg & mins & si & sf & rest & Hok & Htok).
    rewrite Grammar.dms_text_app in Htok. injection Htok as Hsg _.
    subst sg. vm_compute in Hok. discriminate.
Defined.

(** C10.  Both line patterns are anchored at the start of the line only.  A
    header text followed by any characters (the digits of the last field
    being the longest run after [N]) decodes as the header text alone does,
    never as anything but a header, and to a header whenever its digit runs
    are within the range of [int] and of a float; a coordinate text followed
    by any characters is not a header and decodes as the coordinate text
    alone does, to its point whenever the altitude is within the range of
    [int]. *)
Theorem grammars_match_prefixes :
  (forall rn f1 v1 f2 v2 ts tot rest,
      header_ok rn f1 v1 f2 v2 ts tot = true ->
      Str.starts Chars.is_digit rest = false ->
      parse_header_line (header_text rn f1 v1 f2 v2 ts tot ++ rest)
      = parse_header_line (header_text rn f1 v1 f2 v2 ts tot)
      /\ parse_header_line (header_text rn f1 v1 f2 v2 ts tot ++ rest) <> Return None
      /\ ((String.length v1 <= 307)%nat -> (String.length v2 <= 307)%nat ->
          Z.of_nat (String.length rn) <= MAX_STR_DIGITS ->
          Z.of_nat (String.length tot) <= MAX_STR_DIGITS ->
          exists h,
            parse_header_line (header_text rn f1 v1 f2 v2 ts tot ++ rest)
            = Return (Some h)))
  /\ (forall sg1 d1 m1 i1 f1 sg2 d2 m2 i2 f2 alt rest,
        dms_ok sg1 d1 m1 i1 f1 = true -> dms_ok sg2 d2 m2 i2 f2 = true ->
        Str.is_number alt = true ->
        let coord := track_text (dms_text sg1 d1 m1 i1 f1) (dms_text sg2 d2 m2 i2 f2) alt in
        let point a := (dms_value sg1 d1 m1 (i1 ++ "." ++ f1),
                        dms_value sg2 d2 m2 (i2 ++ "." ++ f2), a) in
        parse_header_line (coord ++ rest) = Return None
        /\ parse_track_line (coord ++ rest) = parse_track_line coord
        /\ parse_track_line (coord ++ rest)
           = (a <- int alt ;; Return (Some (point a)))
        /\ (Z.of_nat (String.length alt) <= MAX_STR_DIGITS ->
            parse_track_line (coord ++ rest)
            = Return (Some (point (Str.value alt))))).
Proof.
  split.
  - intros rn f1 v1 f2 v2 ts tot rest Hok Hrest.
    split; [|split].
    + now rewrite (Grammar.parse_header_text _ _ _ _ _ _ _ _ Hok Hrest),
                  (Grammar.parse_header_exact _ _ _ _ _ _ _ Hok).
    + rewrite (Grammar.parse_header_text _ _ _ _ _ _ _ _ Hok Hrest).
      apply Grammar.header_from_groups_not_none.
    + now apply HeaderRange.header_returns.
  - intros sg1 d1 m1 i1 f1 sg2 d2 m2 i2 f2 alt rest H1 H2 Ha coord point.
    assert (Hpt : forall r, parse_track_line (coord ++ r)
                 = (a <- int alt ;; Return (Some (point a))))
      by (intros r; now apply Grammar.parse_track_text).
    assert (Hhd : parse_header_line (coord ++ rest) = Return None).
    { destruct (parse_header_line (coord ++ rest)) as [[h|]|e] eqn:E;
        [exfalso | reflexivity | exfalso].
      all: assert (Hn : Str.starts (Ascii.eqb "n") (coord ++ rest) = true)
        by (apply Grammar.header_not_track; rewrite E; discriminate).
      all: subst coord; rewrite Grammar.track_text_app, Grammar.dms_text_app in Hn;
        apply Grammar.dms_ok_fields in H1 as (Hs & _);
        cbn [Str.starts] in Hn; apply Ascii.eqb_eq in Hn; subst sg1; discriminate. }
    split; [exact Hhd|]. split; [|split].
    + rewrite Hpt. rewrite <- (StrFacts.app_nil_r coord) at 1. now rewrite Hpt.
    + apply Hpt.
    + intros Hlen. now rewrite Hpt, (Grammar.int_short alt Hlen).
Qed.

Lemma grammars_match_prefixes_witness :
  (parse_header_line "n0001,m0410000000,l0082300000;t202401151030,N0005 junk"
   = parse_header_line "n0001,m0410000000,l0082300000;t202401151030,N0005"
   /\ exists h,
        parse_header_line "n0001,m0410000000,l0082300000;t202401151030,N0005 junk"
        = Return (Some h))
  /\ parse_track_line
       (track_text (dms_text "-" "008" "35" "28" "86540")
                   (dms_text "+" "41" "06" "52" "58100") "01769" ++ "junk")
     = Return (Some (dms_value "-" "008" "35" "28.86540",
                     dms_value "+" "41" "06" "52.58100", 1769)).
Proof.
  split; [split|].
  - exact (proj1 (proj1 grammars_match_prefixes
             "0001" "m"%char "0410000000" "l"%char "0082300000" "202401151030"
             "0005" " junk" eq_refl eq_refl)).
  - refine (proj2 (proj2 (proj1 grammars_match_prefixes
             "0001" "m"%char "0410000000" "l"%char "0082300000" "202401151030"
             "0005" " junk" eq_refl eq_refl)) _ _ _ _).
    + cbn [String.length]. lia.
    + cbn [String.length]. lia.
    + vm_compute. discriminate.
    + vm_compute. discriminate.
  - refine (proj2 (proj2 (proj2 (proj2 grammars_match_prefixes
             "-"%char "008" "35" "28" "86540" "+"%char "41" "06" "52" "58100"
             "01769" "junk" eq_refl eq_refl eq_refl))) _).
    vm_compute. discriminate.
Defined.

(** C2.  On a line that starts with a header text, the two field letters
    select the kind and the coordinates as in the table: [m,l] is an Area
    with latitude from the first value and longitude from the second; [l,m]
    a Distance with longitude from the first and latitude from the second;
    [p,p] a Waypoint with latitude from the first and longitude from the
    second; [k,l] a Track with longitude from the second value and latitude
    [0.0]; any other pair is [Unknown(f1,f2)] with both coordinates [0.0].
    A coordinate is [scaled v], that is [int(v) / 10000000.0], and the
    header is returned unless one of these, or [int] of the record number or
    of the total, raises; none does when the values have at most 307 digits
    and the two numbers at most 4300. *)
Theorem header_table rn f1 v1 f2 v2 ts tot rest :
  header_ok rn f1 v1 f2 v2 ts tot = true ->
  Str.starts Chars.is_digit rest = false ->
  let line := header_text rn f1 v1 f2 v2 ts tot ++ rest in
  let header kind lat lon :=
    record <- int rn ;;
    total <- int tot ;;
    Return (Some {| type := kind; record_num := record;
                    latitude := lat; longitude := lon;
                    timestamp := stamp ts; total_records := total |}) in
  (f1 = "m"%char -> f2 = "l"%char ->
   parse_header_line line
   = lat <- scaled v1 ;; lon <- scaled v2 ;; header "Area" lat lon)
  /\ (f1 = "l"%char -> f2 = "m"%char ->
      parse_header_line line
      = lon <- scaled v1 ;; lat <- scaled v2 ;; header "Distance" lat lon)
  /\ (f1 = "p"%char -> f2 = "p"%char ->
      parse_header_line line
      = lat <- scaled v1 ;; lon <- scaled v2 ;; header "Waypoint" lat lon)
  /\ (f1 = "k"%char -> f2 = "l"%char ->
      parse_header_line line
      = lon <- scaled v2 ;; header "Track" zero lon)
  /\ ((f1, f2) <> ("m", "l")%char -> (f1, f2) <> ("l", "m")%char ->
      (f1, f2) <> ("p", "p")%char -> (f1, f2) <> ("k", "l")%char ->
      parse_header_line line
      = header ("Unknown(" ++ String f1 EmptyString ++ ","
                ++ String f2 EmptyString ++ ")") zero zero)
  /\ ((String.length v1 <= 307)%nat -> (String.length v2 <= 307)%nat ->
      Z.of_nat (String.length rn) <= MAX_STR_DIGITS ->
      Z.of_nat (String.length tot) <= MAX_STR_DIGITS ->
      exists lat lon,
        scaled v1 = Return lat /\ scaled v2 = Return lon
        /\ int rn = Return (Str.value rn) /\ int tot = Return (Str.value tot)
        /\ exists h, parse_header_line line = Return (Some h)).
Proof.
  intros Hok Hrest line header. subst line.
  split; [|split; [|split; [|split; [|split]]]].
  6:{ intros H1 H2 Hrn Htot.
      pose proof (Grammar.header_ok_fields _ _ _ _ _ _ _ Hok)
        as (_ & _ & Hv1 & _ & Hv2 & _ & _).
      destruct (FloatRange.scaled_returns v1 (StrFacts.is_number_all _ Hv1) H1)
        as (x1 & E1).
      destruct (FloatRange.scaled_returns v2 (StrFacts.is_number_all _ Hv2) H2)
        as (x2 & E2).
      exists x1, x2. repeat split; try assumption.
      - now apply Grammar.int_short.
      - now apply Grammar.int_short.
      - now apply HeaderRange.header_returns. }
  all: rewrite (Grammar.parse_header_text _ _ _ _ _ _ _ _ Hok Hrest).
  all: unfold header_from_groups.
  all: change "m" with (String "m" EmptyString); change "l" with (String "l" EmptyString).
  all: change "p" with (String "p" EmptyString); change "k" with (String "k" EmptyString).
  all: rewrite !Grammar.eqb_single.
  - intros -> ->. cbn [Ascii.eqb Bool.eqb andb]. unfold bind, header, stamp.
    destruct (scaled v1); [|reflexivity]. now destruct (scaled v2).
  - intros -> ->. cbn [Ascii.eqb Bool.eqb andb]. unfold bind, header, stamp.
    destruct (scaled v1); [|reflexivity]. now destruct (scaled v2).
  - intros -> ->. cbn [Ascii.eqb Bool.eqb andb]. unfold bind, header, stamp.
    destruct (scaled v1); [|reflexivity]. now destruct (scaled v2).
  - intros -> ->. cbn [Ascii.eqb Bool.eqb andb]. unfold bind, header, stamp.
    now destruct (scaled v2).
  - intros Hml Hlm Hpp Hkl.
    now rewrite (Grammar.pair_neq _ _ _ _ Hml), (Grammar.pair_neq _ _ _ _ Hlm),
      (Grammar.pair_neq _ _ _ _ Hpp), (Grammar.pair_neq _ _ _ _ Hkl).
Qed.

Lemma header_table_witness :
  parse_header_line "n0001,m0410000000,l0082300000;t202401151030,N0005"
  = Return (Some {| type := "Area"; record_num := 1;
                    latitude := S754_finite false 5770237022568448 (-47);
                    longitude := S754_finite false 4633078116657398 (-49);
                    timestamp := "2024-01-15 10:30"; total_records := 5 |}).
Proof.
  refine (eq_trans
    (proj1 (header_table "0001" "m"%char "0410000000" "l"%char "0082300000"
              "202401151030" "0005" EmptyString eq_refl eq_refl) eq_refl eq_refl) _).
  vm_compute. reflexivity.
Defined.

(** C3, as the code has it.  A line decodes to a header only when it starts
    with [n<digits>,<letter><digits>,<letter><digits>;t<digits>,N<digits>],
    the timestamp being any non-empty run of digits; the timestamp of the
    header is made of the slices [0:4], [4:6], [6:8], [8:10] and [10:12] of
    those digits, taken as they are, which for twelve digits are the year,
    month, day, hour and minute. *)
Theorem header_only_from_grammar (line : string) (h : Header) :
  parse_header_line line = Return (Some h) ->
  exists rn f1 v1 f2 v2 ts tot rest,
    header_ok rn f1 v1 f2 v2 ts tot = true
    /\ Str.starts Chars.is_digit rest = false
    /\ line = header_text rn f1 v1 f2 v2 ts tot ++ rest
    /\ timestamp h
       = Str.slice 0 4 ts ++ "-" ++ Str.slice 4 6 ts ++ "-" ++ Str.slice 6 8 ts
         ++ " " ++ Str.slice 8 10 ts ++ ":" ++ Str.slice 10 12 ts
    /\ (forall year month day hour minute,
          String.length year = 4%nat -> String.length month = 2%nat ->
          String.length day = 2%nat -> String.length hour = 2%nat ->
          String.length minute = 2%nat ->
          ts = year ++ month ++ day ++ hour ++ minute ->
          timestamp h = year ++ "-" ++ month ++ "-" ++ day ++ " " ++ hour
                        ++ ":" ++ minute).
Proof.
  intros H.
  assert (Hn : parse_header_line line <> Return None) by (rewrite H; discriminate).
  apply Grammar.parse_header_inv in Hn
    as (rn & f1 & v1 & f2 & v2 & ts & tot & rest & Hok & Hrest & ->).
  rewrite (Grammar.parse_header_text _ _ _ _ _ _ _ _ Hok Hrest) in H.
  apply Grammar.header_from_groups_some in H as (_ & Hts & _).
  exists rn, f1, v1, f2, v2, ts, tot, rest.
  repeat split; try assumption.
  intros y mo d hh mi Hy Hmo Hd Hhh Hmi ->. rewrite Hts.
  now apply Grammar.stamp_12.
Qed.

Lemma header_only_from_grammar_witness :
  exists rn f1 v1 f2 v2 ts tot rest,
    header_ok rn f1 v1 f2 v2 ts tot = true
    /\ Str.starts Chars.is_digit rest = false
    /\ "n7,k1,l2;t999999999999,N3" = header_text rn f1 v1 f2 v2 ts tot ++ rest
    /\ "9999-99-99 99:99"
       = Str.slice 0 4 ts ++ "-" ++ Str.slice 4 6 ts ++ "-" ++ Str.slice 6 8 ts
         ++ " " ++ Str.slice 8 10 ts ++ ":" ++ Str.slice 10 12 ts.
Proof.
  destruct (header_only_from_grammar "n7,k1,l2;t999999999999,N3"
              {| type := "Track"; record_num := 7; latitude := zero;
                 longitude := S754_finite false 7555786372591432 (-75);
                 timestamp := "9999-99-99 99:99"; total_records := 3 |})
    as (rn & f1 & v1 & f2 & v2 & ts & tot & rest & H1 & H2 & H3 & H4 & _).
  - vm_compute. reflexivity.
  - now exists rn, f1, v1, f2, v2, ts, tot, rest.
Defined.

(** The claim C3 as it is worded fails: a timestamp of one digit is
    accepted, and the line is a header although it is not in the grammar
    with twelve timestamp digits. *)
Lemma header_with_short_timestamp :
  parse_header_line "n1,m2,l3;t5,N6"
  = Return (Some {| type := "Area"; record_num := 1;
                    latitude := S754_finite false 7555786372591432 (-75);
                    longitude := S754_finite false 5666839779443574 (-74);
                    timestamp := "5-- :"; total_records := 6 |})
  /\ ~ spec_header_grammar "n1,m2,l3;t5,N6".
Proof.
  split; [vm_compute; reflexivity|].
  intros (rn & f1 & v1 & f2 & v2 & ts & tot & rest & _ & Hlen & Heq).
  apply (f_equal String.length) in Heq.
  rewrite Grammar.header_text_app in Heq. cbn [String.length] in Heq.
  repeat (rewrite StrFacts.length_app in Heq; cbn [String.length] in Heq).
  lia.
Qed.

(** ** [parse_raw_data] against the grouping of §4.4 *)

Module Assemble.

Local Open Scope list_scope.

Lemma save_track_flush st :
  save_track st = tracks st ++ flush (current_header st) (current_points st).
Proof.
  unfold save_track, flush.
  destruct (is_some (current_header st) || nonempty (current_points st))%bool;
    [reflexivity|now rewrite List.app_nil_r].
Qed.

Lemma assemble_line_classify st raw :
  assemble_line st raw =
  match classify raw with
  | Skipped | Noise => Return st
  | IsHeader h =>
      Return {| tracks := save_track st; current_header := Some h;
                current_points := [] |}
  | IsPoint p =>
      Return {| tracks := tracks st; current_header := current_header st;
                current_points := current_points st ++ [p] |}
  | Fails e => Raise e
  end.
Proof.
  unfold assemble_line, classify.
  destruct (Str.is_empty (Str.strip raw) || String.eqb (Str.strip raw) "!")%bool;
    [reflexivity|].
  destruct (parse_header_line (Str.strip raw)) as [[h|]|e]; cbn [bind];
    try reflexivity.
  now destruct (parse_track_line (Str.strip raw)) as [[p|]|e].
Qed.

Lemma no_failure_cons k ks :
  no_failure (k :: ks) -> (forall e, k <> Fails e) /\ no_failure ks.
Proof.
  intros H. split.
  - intros e ->. apply (H e). now left.
  - intros e Hin. apply (H e). now right.
Qed.

Lemma assemble_lines_group lines :
  forall st,
    no_failure (List.map classify lines) ->
    exists st',
      assemble_lines st lines = Return st'
      /\ save_track st'
         = tracks st
           ++ group (current_header st) (current_points st) (List.map classify lines).
Proof.
  induction lines as [|raw lines IH]; intros st Hok; cbn [List.map assemble_lines group].
  - exists st. split; [reflexivity|apply save_track_flush].
  - apply no_failure_cons in Hok as [Hraw Hok].
    rewrite assemble_line_classify.
    destruct (classify raw) as [|h|p| |e]; cbn [bind].
    + apply (IH st Hok).
    + destruct (IH {| tracks := save_track st; current_header := Some h;
                      current_points := [] |} Hok) as (st' & Hrun & Hsave).
      exists st'. split; [assumption|]. rewrite Hsave. cbn [tracks current_header current_points].
      now rewrite save_track_flush, <- List.app_assoc.
    + destruct (IH {| tracks := tracks st; current_header := current_header st;
                      current_points := current_points st ++ [p] |} Hok)
        as (st' & Hrun & Hsave).
      exists st'. split; [assumption|]. now rewrite Hsave.
    + apply (IH st Hok).
    + now destruct (Hraw e).
Qed.

Lemma parse_raw_data_group data :
  no_failure (kinds data) ->
  parse_raw_data data = Return (group None [] (kinds data)).
Proof.
  intros Hok. unfold parse_raw_data.
  destruct (assemble_lines_group (lines_of data)
              {| tracks := []; current_header := None; current_points := [] |} Hok)
    as (st' & Hrun & Hsave).
  unfold lines_of in Hrun. rewrite Hrun. cbn [bind]. now rewrite Hsave.
Qed.

Lemma assemble_lines_raise lines :
  forall st l1 raw l2 e,
    lines = l1 ++ raw :: l2 ->
    no_failure (List.map classify l1) -> classify raw = Fails e ->
    assemble_lines st lines = Raise e.
Proof.
  intros st l1. revert st lines.
  induction l1 as [|a l1 IH]; intros st lines raw l2 e -> Hok Hraw;
    cbn [List.app assemble_lines].
  - now rewrite assemble_line_classify, Hraw.
  - cbn [List.map] in Hok. apply no_failure_cons in Hok as [Ha Hok].
    rewrite assemble_line_classify.
    destruct (classify a) as [|h|p| |e']; cbn [bind];
      try (eapply IH; [reflexivity|eassumption|eassumption]).
    now destruct (Ha e').
Qed.

(** *** The grouping *)

Lemma track_headers_app a b :
  track_headers (a ++ b) = track_headers a ++ track_headers b.
Proof. unfold track_headers. apply List.flat_map_app. Qed.

Lemma track_headers_flush cur pts :
  track_headers (flush cur pts) = match cur with Some h => [h] | None => [] end.
Proof.
  unfold flush. destruct cur as [h|]; [reflexivity|].
  now destruct pts.
Qed.

Lemma group_headers ks :
  forall cur pts,
    track_headers (group cur pts ks)
    = match cur with Some h => [h] | None => [] end ++ headers_of ks.
Proof.
  induction ks as [|k ks IH]; intros cur pts; cbn [group headers_of List.flat_map].
  - now rewrite track_headers_flush, List.app_nil_r.
  - destruct k as [|h|p| |e]; cbn [List.app]; rewrite ?track_headers_app, ?IH;
      try reflexivity.
    now rewrite track_headers_flush.
Qed.

Lemma group_points_only ks :
  forall cur pts,
    coordinates_only ks ->
    group cur pts ks = flush cur (pts ++ points_of ks).
Proof.
  induction ks as [|k ks IH]; intros cur pts Hall; cbn [group points_of List.flat_map].
  - now rewrite List.app_nil_r.
  - inversion Hall as [|? ? Hk Hks]; subst.
    destruct Hk as [->|[p ->]].
    + now apply IH.
    + rewrite (IH _ _ Hks). cbn [List.app]. now rewrite <- List.app_assoc.
Qed.

(** Whatever came before, the tracks of a longer input end with the
    tracks of its tail, grouped from some current header and points. *)
Lemma group_app k1 :
  forall cur pts k2,
    exists emitted cur' pts',
      group cur pts (k1 ++ k2) = emitted ++ group cur' pts' k2.
Proof.
  induction k1 as [|k k1 IH]; intros cur pts k2; cbn [List.app group].
  - now exists [], cur, pts.
  - destruct k as [|h|p| |e]; try apply IH.
    destruct (IH (Some h) [] k2) as (em & cur' & pts' & ->).
    exists (flush cur pts ++ em), cur', pts'. now rewrite List.app_assoc.
Qed.

Lemma group_empty_track h1 mid :
  forall h2 k2,
    List.forallb (fun k => negb (is_point k)) mid = true ->
    In (Some h1, []) (group (Some h1) [] (mid ++ IsHeader h2 :: k2)).
Proof.
  induction mid as [|k mid IH]; intros h2 k2 Hmid; cbn [List.app group].
  - now left.
  - cbn [List.forallb] in Hmid. apply andb_true_iff in Hmid as [Hk Hmid].
    destruct k as [|h|p| |e]; try (now apply IH); [now left|discriminate].
Qed.

Lemma group_header_then_header k1 h1 mid h2 k2 cur pts :
  List.forallb (fun k => negb (is_point k)) mid = true ->
  In (Some h1, []) (group cur pts (k1 ++ IsHeader h1 :: mid ++ IsHeader h2 :: k2)).
Proof.
  intros Hmid.
  destruct (group_app k1 cur pts (IsHeader h1 :: mid ++ IsHeader h2 :: k2))
    as (em & cur' & pts' & ->).
  apply List.in_or_app. right. cbn [group]. apply List.in_or_app. right.
  now apply group_empty_track.
Qed.

Lemma coordinates_only_no_failure ks : coordinates_only ks -> no_failure ks.
Proof.
  intros Hall e Hin. unfold coordinates_only in Hall.
  rewrite List.Forall_forall in Hall.
  destruct (Hall _ Hin) as [H|[p H]]; discriminate.
Qed.

Lemma group_nothing ks :
  forall cur pts,
    Forall (fun k => k = Skipped \/ k = Noise) ks ->
    group cur pts ks = flush cur pts.
Proof.
  induction ks as [|k ks IH]; intros cur pts Hall; cbn [group]; [reflexivity|].
  inversion Hall as [|? ? Hk Hks]; subst. destruct Hk as [->| ->]; now apply IH.
Qed.

(** Lines that match neither pattern change nothing. *)
Lemma group_skip_noise k1 k2 cur pts :
  group cur pts (k1 ++ Noise :: k2) = group cur pts (k1 ++ k2).
Proof.
  revert cur pts. induction k1 as [|k k1 IH]; intros cur pts; cbn [List.app group].
  - reflexivity.
  - destruct k; now rewrite ?IH.
Qed.

(** A buffer in which no line is a header or a coordinate gives no track. *)
Lemma unparseable_buffer_no_tracks data :
  Forall (fun k => k = Skipped \/ k = Noise) (kinds data) ->
  parse_raw_data data = Return [].
Proof.
  intros Hall. rewrite parse_raw_data_group.
  - now rewrite group_nothing.
  - intros e Hin. rewrite List.Forall_forall in Hall.
    destruct (Hall _ Hin) as [H|H]; discriminate.
Qed.

(** The first line on which a decoder raises ends the whole call
    with that exception. *)
Lemma parse_raw_data_raises data l1 raw l2 e :
  lines_of data = l1 ++ raw :: l2 ->
  no_failure (List.map classify l1) -> classify raw = Fails e ->
  parse_raw_data data = Raise e.
Proof.
  intros Hl Hok Hraw. unfold parse_raw_data. fold (lines_of data).
  now rewrite (assemble_lines_raise _ _ l1 raw l2 e Hl Hok Hraw).
Qed.

End Assemble.

(** ** Claims on the assembler *)

(** C5.  A buffer of coordinate lines, that is one whose lines are blank,
    sentinel or coordinate lines with at least one coordinate line, gives
    exactly one track, without header, holding the points of the coordinate
    lines in the order of the lines.  A coordinate line is a line the
    coordinate decoder turns into a point. *)
Theorem coordinates_only_one_track (data : list byte) :
  coordinates_only (kinds data) ->
  points_of (kinds data) <> [] ->
  parse_raw_data data = Return [(None, points_of (kinds data))].
Proof.
  intros Hall Hne.
  rewrite Assemble.parse_raw_data_group
    by now apply Assemble.coordinates_only_no_failure.
  rewrite (Assemble.group_points_only _ _ _ Hall). cbn [List.app].
  unfold flush. now destruct (points_of (kinds data)).
Qed.

Lemma coordinates_only_one_track_witness :
  parse_raw_data two_points
  = Return [(None, [(S754_finite true 4836500926751119 (-49),
                     S754_finite false 5786366359702651 (-47), 1769);
                    (S754_finite true 4836521974824378 (-49),
                     S754_finite false 5786382739982546 (-47), 1770)])].
Proof.
  refine (eq_trans (coordinates_only_one_track two_points _ _) _).
  - vm_compute.
    repeat (constructor; [first [now left | right; eexists; reflexivity]|]).
    constructor.
  - vm_compute. discriminate.
  - vm_compute. reflexivity.
Defined.

(** The boundary of C5: a buffer without any coordinate line, all its
    lines being blank, gives no track at all. *)
Lemma empty_buffer_no_track :
  coordinates_only (kinds []) /\ headers_of (kinds []) = []
  /\ parse_raw_data [] = Return [].
Proof.
  split; [|split; reflexivity].
  vm_compute. constructor; [now left|constructor].
Qed.

(** C6.  When no line makes a decoder raise, every header line has its own track,
    in the order of the header lines; and a header line followed by another
    header line with no coordinate line between them still has its track,
    with no points. *)
Theorem header_lines_start_tracks (data : list byte) :
  no_failure (kinds data) ->
  exists ts,
    parse_raw_data data = Return ts
    /\ track_headers ts = headers_of (kinds data)
    /\ (forall k1 h1 mid h2 k2,
          kinds data = (k1 ++ IsHeader h1 :: mid ++ IsHeader h2 :: k2)%list ->
          List.forallb (fun k => negb (is_point k)) mid = true ->
          In (Some h1, []) ts).
Proof.
  intros Hok. exists (group None [] (kinds data)).
  split; [now apply Assemble.parse_raw_data_group|]. split.
  - now rewrite Assemble.group_headers.
  - intros k1 h1 mid h2 k2 -> Hmid.
    now apply Assemble.group_header_then_header.
Qed.

Lemma header_lines_start_tracks_witness :
  exists ts,
    parse_raw_data two_headers = Return ts
    /\ track_headers ts = [header_1; header_2]
    /\ In (Some header_1, []) ts.
Proof.
  assert (Hk : kinds two_headers = [IsHeader header_1; IsHeader header_2; Skipped])
    by (vm_compute; reflexivity).
  destruct (header_lines_start_tracks two_headers) as (ts & H1 & H2 & H3).
  - rewrite Hk. intros e [H|[H|[H|[]]]]; discriminate.
  - exists ts. split; [assumption|]. split.
    + now rewrite H2, Hk.
    + apply (H3 [] header_1 [] header_2 [Skipped]); [assumption|reflexivity].
Defined.

(** C7 fails on the code: a header line whose value is too long for a
    float makes [parse_raw_data] raise instead of skipping the line. *)
Theorem overflowing_header_raises :
  parse_raw_data (bytes_of (overflowing_header ++ nl)) = Raise OverflowError.
Proof. vm_compute. reflexivity. Qed.

(** The decoders raise on a digit run longer than [int] accepts as well:
    a coordinate line with an altitude of 4301 digits, a header line with a
    record number of 4301 digits. *)
Example overlong_altitude_raises :
  parse_raw_data
    (bytes_of (track_text (dms_text "-" "008" "35" "28" "86540")
                          (dms_text "+" "41" "06" "52" "58100")
                          (replicate 4301 "0") ++ nl))
  = Raise ValueError.
Proof. vm_compute. reflexivity. Qed.

Example overlong_record_number_raises :
  parse_header_line ("n" ++ replicate 4301 "1" ++ ",m1,l2;t202401151030,N1")
  = Raise ValueError
  /\ parse_header_line ("n" ++ replicate 4300 "1" ++ ",m1,l2;t202401151030,N1")
     <> Raise ValueError.
Proof. split; vm_compute; [reflexivity|discriminate]. Qed.

(** ** Claim on [export_tracks] *)

Module ExportFacts.

Local Open Scope list_scope.




End ExportFacts.



(** ** The receive loop *)

Module Receive.

Local Open Scope list_scope.

Lemma poll_spec w :
  now w <= now (snd (poll w)) /\ console (snd (poll w)) = console w
  /\ ((rx w = [] /\ fst (poll w) = [] /\ snd (poll w) = w)
      \/ (exists p, rx w = p :: rx (snd (poll w)) /\ fst (poll w) = waiting p)).
Proof.
  unfold poll. destruct (rx w) as [|p rest] eqn:E; cbn [fst snd now console rx].
  - repeat split; try lia. now left.
  - repeat split; try lia. right. now exists p.
Qed.

(** The three ways a pass can end, with the state each leaves. *)
Lemma pass_inv timeout idle s :
  let chunk := fst (poll (world s)) in
  let w1 := snd (poll (world s)) in
  match pass timeout idle s with
  | TimedOut s' => s' = s /\ timeout <= now (world s) - start_time s
  | Broke s' =>
      now (world s) - start_time s < timeout /\ chunk = []
      /\ (exists t, last_data_time s = Some t /\ t <> 0 /\ idle <= now w1 - t)
      /\ s' = {| world := print (StreamIdle idle) w1;
                 start_time := start_time s;
                 last_data_time := last_data_time s;
                 all_data := all_data s;
                 chunks_received := chunks_received s |}
  | Again s' =>
      now (world s) - start_time s < timeout
      /\ start_time s' = start_time s
      /\ now (world s') = now w1 + poll_interval
      /\ rx (world s') = rx w1
      /\ ((chunk <> [] /\ last_data_time s' = Some (now w1)
           /\ all_data s' = all_data s ++ chunk
           /\ chunks_received s' = S (chunks_received s))
          \/ (chunk = [] /\ last_data_time s' = last_data_time s
              /\ all_data s' = all_data s
              /\ chunks_received s' = chunks_received s
              /\ console (world s') = console w1
              /\ forall t, last_data_time s = Some t -> t <> 0 ->
                           now w1 - t < idle))
  end.
Proof.
  intros chunk w1. unfold pass, time_time. subst chunk w1.
  destruct (now (world s) - start_time s <? timeout) eqn:Hc;
    [apply Z.ltb_lt in Hc | apply Z.ltb_ge in Hc; now split].
  destruct (poll (world s)) as [chunk w1]; cbn [fst snd].
  destruct chunk as [|b chunk]; cbn [nonempty].
  - destruct (last_data_time s) as [t|] eqn:Hl; cbn [truthy].
    + destruct (t =? 0) eqn:Ht.
      * cbn. repeat split; auto. right. repeat split; auto.
        intros t' [= <-] Hne. apply Z.eqb_eq in Ht. contradiction.
      * apply Z.eqb_neq in Ht. destruct (idle <=? now w1 - t) eqn:Hi.
        -- apply Z.leb_le in Hi. repeat split; auto. now exists t.
        -- apply Z.leb_gt in Hi. cbn. repeat split; auto. right.
           repeat split; auto. now intros t' [= <-] _.
    + cbn. repeat split; auto. right. repeat split; auto. discriminate.
  - cbn [world start_time last_data_time all_data chunks_received].
    repeat split; auto.
    + now destruct (S (chunks_received s) mod 10 =? 0)%nat.
    + now destruct (S (chunks_received s) mod 10 =? 0)%nat.
    + left. repeat split; auto. discriminate.
Qed.

(** *** Termination: the hard timeout bounds the number of passes *)

Lemma run_loop_ends timeout idle fuel :
  forall s,
    timeout - (now (world s) - start_time s) <= poll_interval * Z.of_nat fuel ->
    exists p, run_loop (S fuel) timeout idle s = Some p.
Proof.
  unfold poll_interval.
  induction fuel as [|fuel IH]; intros s Hs;
    cbn [run_loop]; pose proof (pass_inv timeout idle s) as H;
    pose proof (poll_spec (world s)) as (Hnow & _);
    destruct (pass timeout idle s) as [s'|s'|s']; try (eexists; reflexivity);
    destruct H as (Hc & Hst & Hn & _); unfold poll_interval in Hn.
  - lia.
  - apply IH. rewrite Hst, Hn. lia.
Qed.


Lemma run_loop_not_again timeout idle fuel :
  forall s p, run_loop fuel timeout idle s = Some p -> forall s', p <> Again s'.
Proof.
  induction fuel as [|fuel IH]; intros s p H s'; [discriminate|].
  cbn [run_loop] in H.
  destruct (pass timeout idle s) as [s1|s1|s1]; [now apply (IH s1)| |];
    injection H as <-; discriminate.
Qed.

(** *** What the loop holds is what the transport delivered *)

Lemma skipn_step {A : Type} (l : list A) :
  forall n a rest,
    List.skipn n l = a :: rest ->
    List.skipn (S n) l = rest /\ List.firstn (S n) l = List.firstn n l ++ [a].
Proof.
  induction l as [|x l IH]; intros n a rest H.
  - destruct n; discriminate.
  - destruct n as [|n]; cbn [List.skipn List.firstn] in *.
    + injection H as -> ->. now split.
    + destruct (IH n a rest H) as [H1 H2]. split; [assumption|].
      cbn [List.app]. f_equal. exact H2.
Qed.

Lemma delivered_step script n p rest :
  List.skipn n script = p :: rest ->
  delivered (S n) script = delivered n script ++ waiting p.
Proof.
  intros H. unfold delivered. destruct (skipn_step script n p rest H) as [_ ->].
  now rewrite List.map_app, List.concat_app; cbn; rewrite List.app_nil_r.
Qed.

Lemma pass_keeps script timeout idle s :
  consumed script s -> primed s ->
  consumed script (final (pass timeout idle s))
  /\ primed (final (pass timeout idle s)).
Proof.
  intros (n & Hrx & Hall) Hp.
  pose proof (pass_inv timeout idle s) as H. cbv zeta in H.
  pose proof (poll_spec (world s)) as (_ & _ & Hpoll).
  assert (Hcons : exists m, rx (snd (poll (world s))) = List.skipn m script
            /\ all_data s ++ fst (poll (world s)) = delivered m script).
  { destruct Hpoll as [(He & Hc & Hw)|(p & He & Hc)].
    - exists n. rewrite Hw, Hc, List.app_nil_r. now split.
    - exists (S n). rewrite Hrx in He. rewrite Hc.
      destruct (skipn_step script n p _ He) as [Hs _].
      split; [now rewrite Hs|].
      now rewrite (delivered_step script n p _ He), Hall. }
  destruct Hcons as (m & Hm1 & Hm2).
  destruct (pass timeout idle s) as [s'|s'|s']; cbn [final].
  - destruct H as (_ & _ & _ & Hrx' & [(Hc & Hl & Ha & Hn)|(Hc & Hl & Ha & Hn & _)]).
    + split.
      * exists m. now rewrite Hrx', Ha.
      * unfold primed. rewrite Hl, Hn. split; discriminate.
    + split.
      * exists m. rewrite Hrx', Ha. split; [assumption|].
        now rewrite <- Hm2, Hc, List.app_nil_r.
      * unfold primed. now rewrite Hl, Hn.
  - destruct H as (_ & Hc & _ & ->). cbn [world all_data print rx]. split.
    + exists m. split; [assumption|]. now rewrite <- Hm2, Hc, List.app_nil_r.
    + exact Hp.
  - destruct H as (-> & _). split; [now exists n|exact Hp].
Qed.

Lemma run_loop_keeps script timeout idle fuel :
  forall s p,
    run_loop fuel timeout idle s = Some p ->
    consumed script s -> primed s ->
    consumed script (final p) /\ primed (final p).
Proof.
  induction fuel as [|fuel IH]; intros s p H Hc Hp; [discriminate|].
  cbn [run_loop] in H.
  destruct (pass_keeps script timeout idle s Hc Hp) as [Hc' Hp'].
  destruct (pass timeout idle s) as [s'|s'|s'] eqn:E; cbn [final] in *.
  - now apply (IH s').
  - injection H as <-. now split.
  - injection H as <-. now split.
Qed.

(** *** Why the loop ended *)


(** *** Silence after data *)

Lemma run_loop_S timeout idle fuel s :
  run_loop (S fuel) timeout idle s
  = match pass timeout idle s with
    | Again s' => run_loop fuel timeout idle s'
    | done => Some done
    end.
Proof. reflexivity. Qed.


Lemma start_state_consumed w w0 :
  rx w0 = rx w -> consumed (rx w) (start_state w0) /\ primed (start_state w0).
Proof.
  intros H. split; [exists 0%nat; now split|]. unfold primed. now split.
Qed.

Lemma passes_bound_enough timeout w :
  timeout - (now (world (start_state w)) - start_time (start_state w))
  <= poll_interval * Z.of_nat (Z.to_nat (timeout / poll_interval) + 1).
Proof.
  unfold poll_interval, start_state, time_time. cbn [world start_time].
  pose proof (Z.mul_succ_div_gt timeout 50 ltac:(lia)) as H.
  destruct (Z.le_gt_cases 0 timeout) as [Hpos|Hneg].
  - pose proof (Z.div_pos timeout 50 Hpos ltac:(lia)). lia.
  - lia.
Qed.

Lemma session_ends timeout idle w :
  exists p, run_loop (passes_bound timeout) timeout idle (start_state w) = Some p.
Proof.
  unfold passes_bound.
  replace (Z.to_nat (timeout / poll_interval) + 2)%nat
    with (S (Z.to_nat (timeout / poll_interval) + 1)) by lia.
  apply run_loop_ends, passes_bound_enough.
Qed.

(** *** Data, then silence *)






End Receive.

(** ** Claims on [receive_data] *)

(** C1, as the code has it.  On a transport that does not fail, with a
    finite hard timeout: on a channel that is not open [receive_data]
    returns [None]; on an open channel the session ends and returns what
    the polls it made delivered, concatenated, when that is at least one
    byte, and [None] when it is empty: a session that ends with zero bytes
    returns the same value as a channel that is not open. *)
Theorem receive_data_empty_is_none serial_conn w timeout idle_timeout :
  exists r w',
    receive_data serial_conn w timeout idle_timeout = Some (r, w')
    /\ (connected serial_conn = false -> r = None)
    /\ (connected serial_conn = true ->
        exists n,
          rx w' = List.skipn n (rx w)
          /\ r = if nonempty (delivered n (rx w))
                 then Some (delivered n (rx w)) else None).
Proof.
  unfold receive_data, receive_data_in.
  destruct (connected serial_conn); cbn [negb].
  - destruct (Receive.session_ends timeout idle_timeout (time_sleep settle_delay w))
      as (p & Hp).
    rewrite Hp.
    destruct (Receive.start_state_consumed w (time_sleep settle_delay w) eq_refl)
      as [Hc Hpr].
    destruct (Receive.run_loop_keeps _ _ _ _ _ _ Hp Hc Hpr) as [(n & Hrx & Hall) _].
    eexists _, _. split; [reflexivity|]. split; [discriminate|].
    intros _. exists n. rewrite <- Hall. split; [|reflexivity].
    now destruct (0 <? chunks_received (final p))%nat.
  - eexists _, _. split; [reflexivity|]. split; [reflexivity|discriminate].
Qed.

(** The claim C1 as it is worded fails: a session on an open channel that
    times out with zero bytes and a call on a channel that is not open both
    return [None]; only the console tells them apart. *)
Lemma empty_session_same_as_error :
  receive_data (Some (mkSerial true)) quiet 1000 3000
  = Some (None, {| now := 2200; rx := []; console := [] |})
  /\ receive_data None quiet 1000 3000
     = Some (None, {| now := 1000; rx := []; console := [NotConnected] |})
  /\ option_map fst (receive_data (Some (mkSerial true)) quiet 1000 3000)
     = option_map fst (receive_data None quiet 1000 3000).
Proof. repeat split; vm_compute; reflexivity. Qed.



(** The scenario of the specification: three chunks, then silence; the
    session ends at the [break] with the three chunks concatenated, long
    before the hard timeout of 60 s. *)
Example three_chunks_then_idle :
  receive_data (Some (mkSerial true)) three_chunks DOWNLOAD_TIMEOUT DEFAULT_IDLE_TIMEOUT
  = Some (Some (bytes_of "n0001,m0410000000,l0082300000;"),
          {| now := 4303; rx := []; console := [StreamIdle 3000; Total 3 30] |}).
Proof. vm_compute. reflexivity. Qed.

(** * Further properties *)

(** ** The range of the decoders *)

(** X1.  A header line whose two values have at most 307 digits each,
    and whose record number and total have at most 4300 digits each,
    decodes to a header: [parse_header_line] raises on no such line. *)
Theorem header_short_values_return rn f1 v1 f2 v2 ts tot rest :
  header_ok rn f1 v1 f2 v2 ts tot = true ->
  Str.starts Chars.is_digit rest = false ->
  (String.length v1 <= 307)%nat -> (String.length v2 <= 307)%nat ->
  Z.of_nat (String.length rn) <= MAX_STR_DIGITS ->
  Z.of_nat (String.length tot) <= MAX_STR_DIGITS ->
  exists h,
    parse_header_line (header_text rn f1 v1 f2 v2 ts tot ++ rest) = Return (Some h)
    /\ record_num h = Str.value rn /\ total_records h = Str.value tot.
Proof.
  intros Hok Hrest H1 H2 Hrn Htot.
  destruct (HeaderRange.header_returns rn f1 v1 f2 v2 ts tot rest Hok Hrest
              H1 H2 Hrn Htot) as (h & Hh).
  exists h. split; [exact Hh|].
  rewrite (Grammar.parse_header_text _ _ _ _ _ _ _ _ Hok Hrest) in Hh.
  apply Grammar.header_from_groups_some in Hh as (Hr & _ & Ht).
  rewrite (Grammar.int_short rn Hrn) in Hr.
  rewrite (Grammar.int_short tot Htot) in Ht.
  injection Hr as Hr. injection Ht as Ht. now split.
Qed.

Lemma header_short_values_return_witness :
  exists h,
    parse_header_line "n0001,m0410000000,l0082300000;t202401151030,N0005 and more"
    = Return (Some h)
    /\ record_num h = 1 /\ total_records h = 5.
Proof.
  destruct (header_short_values_return "0001" "m"%char "0410000000" "l"%char
              "0082300000" "202401151030" "0005" " and more" eq_refl eq_refl)
    as (h & H1 & H2 & H3).
  - cbn [String.length]. lia.
  - cbn [String.length]. lia.
  - vm_compute. discriminate.
  - vm_compute. discriminate.
  - exists h. split; [exact H1|]. split; [exact H2|exact H3].
Defined.

(** X2.  A buffer none of whose lines is longer than 307 characters is
    always decoded: [parse_raw_data] returns its tracks and does not
    raise. *)
Theorem short_lines_never_raise (data : list byte) :
  Forall (fun raw => (String.length raw <= 307)%nat) (lines_of data) ->
  exists ts, parse_raw_data data = Return ts.
Proof.
  intros Hall. rewrite Assemble.parse_raw_data_group; [now eexists|].
  intros e Hin. unfold kinds in Hin. apply List.in_map_iff in Hin as (raw & Hk & Hraw).
  rewrite List.Forall_forall in Hall. specialize (Hall raw Hraw).
  apply HeaderRange.failing_line_is_long in Hk. lia.
Qed.

Lemma short_lines_never_raise_witness :
  exists ts, parse_raw_data two_headers = Return ts.
Proof.
  apply short_lines_never_raise. vm_compute.
  repeat (constructor; [lia|]). constructor.
Defined.

(** ** More on [parse_raw_data] *)

Module AssembleMore.

Local Open Scope list_scope.

Lemma all_points_app a b : all_points (a ++ b) = all_points a ++ all_points b.
Proof. unfold all_points. now rewrite List.map_app, List.concat_app. Qed.

Lemma all_points_flush cur pts : all_points (flush cur pts) = pts.
Proof.
  unfold flush. destruct cur as [h|]; cbn; [now rewrite List.app_nil_r|].
  destruct pts; cbn; [reflexivity|now rewrite List.app_nil_r].
Qed.

Lemma group_all_points ks :
  forall cur pts, all_points (group cur pts ks) = pts ++ points_of ks.
Proof.
  induction ks as [|k ks IH]; intros cur pts; cbn [group points_of List.flat_map].
  - now rewrite all_points_flush, List.app_nil_r.
  - destruct k as [|h|p| |e]; cbn [List.app]; rewrite ?all_points_app, ?IH;
      try reflexivity.
    + now rewrite all_points_flush.
    + now rewrite <- List.app_assoc.
Qed.

Lemma flush_content cur pts :
  Forall (fun t => has_content t = true) (flush cur pts).
Proof.
  unfold flush.
  destruct (is_some cur || nonempty pts)%bool eqn:E; constructor; [exact E|constructor].
Qed.

Lemma group_content ks :
  forall cur pts, Forall (fun t => has_content t = true) (group cur pts ks).
Proof.
  induction ks as [|k ks IH]; intros cur pts; cbn [group].
  - apply flush_content.
  - destruct k; try apply IH.
    apply List.Forall_app. split; [apply flush_content|apply IH].
Qed.

(** After what is flushed for the current header, every track has a
    header. *)
Lemma group_later_headers ks :
  forall cur pts,
    exists first rest,
      group cur pts ks = flush cur first ++ rest
      /\ Forall (fun t => is_some (fst t) = true) rest.
Proof.
  induction ks as [|k ks IH]; intros cur pts; cbn [group].
  - exists pts, []. split; [now rewrite List.app_nil_r|constructor].
  - destruct k as [|h|p| |e]; try apply IH.
    destruct (IH (Some h) []) as (first & rest & -> & Hrest).
    exists pts, (flush (Some h) first ++ rest). split; [reflexivity|].
    apply List.Forall_app. split; [|assumption].
    unfold flush. cbn. constructor; [reflexivity|constructor].
Qed.

Lemma group_records ks :
  forall cur pts, group cur pts ks = group cur pts (records ks).
Proof.
  induction ks as [|k ks IH]; intros cur pts; [reflexivity|].
  destruct k; cbn [records List.filter is_record group]; fold (records ks);
    now rewrite IH.
Qed.

Lemma first_failure ks :
  (exists e, In (Fails e) ks) ->
  exists l1 e l2, ks = l1 ++ Fails e :: l2 /\ no_failure l1.
Proof.
  induction ks as [|k ks IH]; intros (e & Hin); [destruct Hin|].
  destruct k as [|h|p| |e0].
  5:{ exists [], e0, ks. split; [reflexivity|]. intros e' []. }
  all: destruct Hin as [Hk|Hin]; [discriminate|].
  all: destruct (IH (ex_intro _ e Hin)) as (l1 & e1 & l2 & -> & Hok).
  all: eexists (_ :: l1), e1, l2; split; [reflexivity|].
  all: intros e' [Hk|Hin']; [discriminate|now apply (Hok e')].
Qed.

Lemma failure_or_not ks : no_failure ks \/ exists e, In (Fails e) ks.
Proof.
  induction ks as [|k ks [IH|(e & IH)]].
  - left. intros e [].
  - destruct k as [|h|p| |e0].
    5:{ right. exists e0. now left. }
    all: left; intros e [Hk|Hin]; [discriminate|now apply (IH e)].
  - right. exists e. now right.
Qed.

(** [parse_raw_data] returns only when no line makes a decoder raise. *)
Lemma returns_no_failure data ts :
  parse_raw_data data = Return ts -> no_failure (kinds data).
Proof.
  intros Hts.
  destruct (failure_or_not (kinds data)) as [Hok|Hf]; [assumption|].
  destruct (first_failure _ Hf) as (l1 & e & l2 & Hk & Hok).
  unfold kinds in Hk. apply List.map_eq_app in Hk as (a & b & Hl & Ha & Hb).
  apply List.map_eq_cons in Hb as (raw & b' & -> & Hraw & _).
  rewrite (Assemble.parse_raw_data_raises data a raw b' e Hl) in Hts;
    [discriminate|now rewrite Ha|assumption].
Qed.

Lemma decode_ascii_only data :
  decode_ascii_ignore data = decode_ascii_ignore (ascii_only data).
Proof.
  unfold decode_ascii_ignore, ascii_only. f_equal. f_equal.
  induction data as [|b data IH]; cbn [List.filter]; [reflexivity|].
  destruct (Byte.to_N b <? 128)%N eqn:E; cbn [List.filter]; rewrite ?E; now rewrite <- IH.
Qed.

End AssembleMore.

(** X3.  Bytes outside ASCII are dropped before anything else: a byte of
    value 128 or more inserted anywhere in a buffer, even inside a line,
    changes nothing of the result. *)
Theorem non_ascii_byte_ignored (before after : list byte) (b : byte) :
  (128 <= Byte.to_N b)%N ->
  parse_raw_data (before ++ b :: after) = parse_raw_data (before ++ after).
Proof.
  intros Hb. unfold parse_raw_data.
  rewrite (AssembleMore.decode_ascii_only (before ++ b :: after)),
          (AssembleMore.decode_ascii_only (before ++ after)).
  unfold ascii_only. rewrite !List.filter_app. cbn [List.filter].
  apply N.ltb_ge in Hb. now rewrite Hb.
Qed.

Lemma non_ascii_byte_ignored_witness :
  parse_raw_data (bytes_of "n0001,m04100" ++ xe9 :: bytes_of "00000,l0082300000;t202401151030,N0005")
  = parse_raw_data (bytes_of "n0001,m04100" ++ bytes_of "00000,l0082300000;t202401151030,N0005").
Proof.
  apply non_ascii_byte_ignored. vm_compute. discriminate.
Defined.

(** X4.  Whenever no line makes a decoder raise, the points of
    the returned tracks, track after track, are exactly the points of the
    coordinate lines of the buffer in their order: no point is lost,
    repeated or moved. *)
Theorem points_are_conserved (data : list byte) :
  no_failure (kinds data) ->
  exists ts,
    parse_raw_data data = Return ts
    /\ all_points ts = points_of (kinds data).
Proof.
  intros Hok. rewrite (Assemble.parse_raw_data_group data Hok).
  eexists. split; [reflexivity|]. now rewrite AssembleMore.group_all_points.
Qed.

Lemma points_are_conserved_witness :
  exists ts,
    parse_raw_data with_sentinel = Return ts
    /\ all_points ts = points_of (kinds with_sentinel).
Proof.
  apply points_are_conserved. intros e Hin. vm_compute in Hin.
  repeat (destruct Hin as [Hin|Hin]; [discriminate|]). exact Hin.
Defined.

(** X5.  Every track [parse_raw_data] returns has a header or at least
    one point, and only the first track can be without header. *)
Theorem tracks_have_content (data : list byte) (ts : list Track) :
  parse_raw_data data = Return ts ->
  Forall (fun t => has_content t = true) ts
  /\ Forall (fun t => is_some (fst t) = true) (List.tl ts).
Proof.
  intros Hts.
  pose proof (AssembleMore.returns_no_failure data ts Hts) as Hok.
  rewrite (Assemble.parse_raw_data_group data Hok) in Hts. injection Hts as <-.
  split; [apply AssembleMore.group_content|].
  destruct (AssembleMore.group_later_headers (kinds data) None [])
    as (first & rest & -> & Hrest).
  unfold flush. destruct (is_some None || nonempty first)%bool; cbn [List.app List.tl].
  - assumption.
  - destruct rest as [|t rest]; cbn [List.tl]; [constructor|].
    now inversion Hrest.
Qed.

Lemma tracks_have_content_witness :
  Forall (fun t : Track => has_content t = true)
         [(Some header_1, []); (Some header_2, [])]
  /\ Forall (fun t : Track => is_some (fst t) = true) [(Some header_2, [])].
Proof.
  apply (tracks_have_content two_headers [(Some header_1, []); (Some header_2, [])]).
  vm_compute. reflexivity.
Defined.

(** X6.  The result depends only on the header lines and the coordinate
    lines, in their order: blank lines, sentinel lines and lines matching
    neither pattern can be added or removed anywhere without changing it.
    In particular a sentinel line does not end a track. *)
Theorem only_records_matter (data1 data2 : list byte) :
  no_failure (kinds data1) -> no_failure (kinds data2) ->
  records (kinds data1) = records (kinds data2) ->
  parse_raw_data data1 = parse_raw_data data2.
Proof.
  intros H1 H2 Heq.
  rewrite (Assemble.parse_raw_data_group data1 H1),
          (Assemble.parse_raw_data_group data2 H2).
  now rewrite (AssembleMore.group_records (kinds data1)), Heq,
              <- (AssembleMore.group_records (kinds data2)).
Qed.

Lemma only_records_matter_witness :
  parse_raw_data with_sentinel = parse_raw_data with_noise.
Proof.
  apply only_records_matter.
  - intros e Hin. vm_compute in Hin.
    repeat (destruct Hin as [Hin|Hin]; [discriminate|]). exact Hin.
  - intros e Hin. vm_compute in Hin.
    repeat (destruct Hin as [Hin|Hin]; [discriminate|]). exact Hin.
  - vm_compute. reflexivity.
Defined.

(** X7.  [parse_raw_data] raises exactly when some line of the buffer
    makes one of the two line decoders raise. *)
Theorem raises_iff_failing_line (data : list byte) :
  (exists e, parse_raw_data data = Raise e)
  <-> (exists e, In (Fails e) (kinds data)).
Proof.
  split.
  - intros (e & Hr).
    destruct (AssembleMore.failure_or_not (kinds data)) as [Hok|Hf]; [|assumption].
    rewrite (Assemble.parse_raw_data_group data Hok) in Hr. discriminate.
  - intros Hf.
    destruct (AssembleMore.first_failure _ Hf) as (l1 & e & l2 & Hk & Hok).
    unfold kinds in Hk. apply List.map_eq_app in Hk as (a & b & Hl & Ha & Hb).
    apply List.map_eq_cons in Hb as (raw & b' & -> & Hraw & _).
    exists e. apply (Assemble.parse_raw_data_raises data a raw b' e Hl);
      [now rewrite Ha|assumption].
Qed.

(** ** More on [export_tracks] *)

Module ExportMore.

Local Open Scope list_scope.



Lemma export_to_path format pts file name ts :
  Forall (fun w => written_path w = file) (export_to format pts file name ts).
Proof. destruct format; repeat constructor. Qed.

Lemma export_one_paths dir format prefix n t :
  format <> RAW ->
  Forall (fun w => exists base,
              written_path w = in_dir dir (base ++ "." ++ extension format))
         (export_one dir format prefix n t).
Proof.
  intros Hf. destruct t as [header pts]. unfold export_one.
  destruct (negb (nonempty pts)); [constructor|].
  assert (He : extension format = format_value format)
    by (destruct format; [reflexivity..|now destruct Hf]).
  rewrite He.
  destruct header as [h|];
    (eapply List.Forall_impl; [|apply export_to_path]);
    intros w ->; eexists; reflexivity.
Qed.

Lemma export_each_paths dir format prefix ts :
  format <> RAW ->
  forall n,
    Forall (fun w => exists base,
                written_path w = in_dir dir (base ++ "." ++ extension format))
           (export_each dir format prefix n ts).
Proof.
  intros Hf. induction ts as [|t ts IH]; intros n; cbn [export_each]; [constructor|].
  apply List.Forall_app. split; [now apply export_one_paths|apply IH].
Qed.

End ExportMore.



(** X9.  Every file [export_tracks] writes is named by joining the output
    directory with a file name that ends in the extension of the format:
    [gpx], [kml] or [csv], and [txt] (not [raw]) for the raw format. *)
Theorem exports_carry_extension output_dir data format split_by_track prefix ws :
  export_tracks output_dir data format split_by_track prefix = Return ws ->
  Forall (fun w => exists base,
              written_path w = in_dir output_dir (base ++ "." ++ extension format))
         ws.
Proof.
  unfold export_tracks. intros H.
  destruct format eqn:Ef.
  4:{ injection H as <-. constructor; [now exists prefix|constructor]. }
  all: destruct (parse_raw_data data) as [ts|e]; cbn [bind] in H; [|discriminate].
  all: destruct (split_by_track && any_header ts)%bool; injection H as <-.
  all: try (apply ExportMore.export_each_paths; discriminate).
  all: constructor; [now exists prefix|constructor].
Qed.

Lemma exports_carry_extension_witness :
  Forall (fun w => exists base,
              written_path w = in_dir "downloads" (base ++ "." ++ extension RAW))
         [RawFile "downloads/dump.txt" with_noise].
Proof.
  apply (exports_carry_extension "downloads" with_noise RAW true "dump").
  reflexivity.
Defined.

(** ** File names *)

Module NameFacts.

Lemma digits_val_rev_onto s :
  forall acc,
    Str.digits_val 0 (Str.rev_onto s acc) = Str.digits_val (rev_val s) acc.
Proof.
  induction s as [|c s IH]; intros acc; cbn [Str.rev_onto rev_val]; [reflexivity|].
  rewrite IH. cbn [Str.digits_val]. f_equal. lia.
Qed.

Lemma digit_char k :
  0 <= k <= 9 -> Chars.digit_val (ascii_of_N (Z.to_N (48 + k))) = k.
Proof.
  intros Hk. unfold Chars.digit_val, Chars.code.
  rewrite N_ascii_embedding by lia. lia.
Qed.

Lemma rev_val_rev_digits fuel :
  forall n, 0 <= n < 10 ^ Z.of_nat fuel -> rev_val (Str.rev_digits fuel n) = n.
Proof.
  induction fuel as [|fuel IH]; intros n Hn; cbn [Str.rev_digits].
  - cbn in Hn. cbn. lia.
  - pose proof (Z.mod_pos_bound n 10 ltac:(lia)) as Hm.
    pose proof (Z.div_mod n 10 ltac:(lia)) as Hdm.
    destruct (Z.ltb_spec n 10) as [Hlt|Hge]; cbn [rev_val].
    + rewrite digit_char by lia. rewrite Z.mod_small by lia. lia.
    + rewrite digit_char by lia. rewrite IH; [lia|].
      rewrite Nat2Z.inj_succ, Z.pow_succ_r in Hn by lia.
      split; [apply Z.div_pos; lia|].
      apply Z.div_lt_upper_bound; lia.
Qed.

Lemma decimal_fuel n :
  0 <= n -> n < 10 ^ Z.of_nat (S (Z.to_nat (Z.log2 n))).
Proof.
  intros Hn. pose proof (Z.log2_nonneg n) as Hl.
  rewrite Nat2Z.inj_succ, Z2Nat.id by assumption.
  destruct (Z.eq_dec n 0) as [->|Hne]; [reflexivity|].
  pose proof (Z.log2_spec n ltac:(lia)) as [_ Hhi].
  eapply Z.lt_le_trans; [exact Hhi|].
  apply Z.pow_le_mono_l. lia.
Qed.

(** The digits of [str(n)] have the value [n], for a natural number. *)
Lemma value_decimal n : 0 <= n -> Str.value (Str.decimal n) = n.
Proof.
  intros Hn. unfold Str.value, Str.decimal, Str.rev.
  rewrite digits_val_rev_onto. cbn [Str.digits_val].
  apply rev_val_rev_digits. split; [assumption|now apply decimal_fuel].
Qed.

Lemma value_zeros k s : Str.value (Str.take k "0000" ++ s) = Str.value s.
Proof. destruct k as [|[|[|[|[|k]]]]]; reflexivity. Qed.

Lemma take_zeros_length k :
  String.length (Str.take k "0000") = Nat.min k 4.
Proof. destruct k as [|[|[|[|[|k]]]]]; reflexivity. Qed.




End NameFacts.

(** X10.  The four digits (or more) that name a record in a file name read
    back as the record number: they have its value, which is what the
    decoder's own [int] returns for them unless they are more than it
    accepts. *)
Theorem record_number_round_trip (n : Z) :
  0 <= n ->
  Str.value (Str.fmt_04d n) = n /\ (4 <= String.length (Str.fmt_04d n))%nat
  /\ (Z.of_nat (String.length (Str.fmt_04d n)) <= MAX_STR_DIGITS ->
      int (Str.fmt_04d n) = Return n).
Proof.
  intros Hn.
  assert (Hv : Str.value (Str.fmt_04d n) = n).
  { unfold Str.fmt_04d. rewrite NameFacts.value_zeros.
    now apply NameFacts.value_decimal. }
  split; [exact Hv|]. split.
  - unfold Str.fmt_04d.
    rewrite StrFacts.length_app, NameFacts.take_zeros_length. lia.
  - intros Hlen. now rewrite (Grammar.int_short _ Hlen), Hv.
Qed.

Lemma record_number_round_trip_witness :
  Str.value (Str.fmt_04d 57) = 57 /\ (4 <= String.length (Str.fmt_04d 57))%nat
  /\ int (Str.fmt_04d 57) = Return 57.
Proof.
  destruct (record_number_round_trip 57 ltac:(lia)) as (H1 & H2 & H3).
  split; [exact H1|]. split; [exact H2|].
  apply H3. vm_compute. discriminate.
Defined.



(** ** More on [receive_data] *)

Module ReceiveMore.

Local Open Scope list_scope.




(** What [receive_data] returns on an open channel, in terms of the loop. *)
Lemma receive_data_open serial_conn w timeout idle :
  connected serial_conn = true ->
  exists p,
    run_loop (passes_bound timeout) timeout idle
             (start_state (time_sleep settle_delay w)) = Some p
    /\ receive_data serial_conn w timeout idle
       = Some (if nonempty (all_data (final p)) then Some (all_data (final p)) else None,
               if (0 <? chunks_received (final p))%nat
               then print (Total (chunks_received (final p))
                                 (List.length (all_data (final p))))
                          (world (final p))
               else world (final p)).
Proof.
  intros Hc.
  destruct (Receive.session_ends timeout idle (time_sleep settle_delay w)) as (p & Hp).
  exists p. split; [assumption|].
  unfold receive_data, receive_data_in. now rewrite Hc, Hp.
Qed.

(** The bytes returned are those the polls made delivered. *)
Lemma receive_data_delivered serial_conn w timeout idle :
  connected serial_conn = true ->
  exists n w',
    rx w' = List.skipn n (rx w)
    /\ receive_data serial_conn w timeout idle
       = Some (if nonempty (delivered n (rx w)) then Some (delivered n (rx w))
               else None, w').
Proof.
  intros Hc.
  destruct (receive_data_open serial_conn w timeout idle Hc) as (p & Hp & ->).
  destruct (Receive.start_state_consumed w (time_sleep settle_delay w) eq_refl)
    as [Hcons Hpr].
  destruct (Receive.run_loop_keeps _ _ _ _ _ _ Hp Hcons Hpr) as [(n & Hrx & Hall) _].
  exists n. eexists. rewrite <- Hall. split; [|reflexivity].
  now destruct (0 <? chunks_received (final p))%nat.
Qed.

End ReceiveMore.



(** X13.  With a hard timeout of zero or less, [receive_data] on an open
    channel returns [None] right after the settle delay, without a single
    poll, whatever is waiting. *)
Theorem receive_data_no_time serial_conn w timeout idle_timeout :
  connected serial_conn = true ->
  timeout <= 0 ->
  receive_data serial_conn w timeout idle_timeout
  = Some (None, time_sleep settle_delay w).
Proof.
  intros Hc Ht. unfold receive_data, receive_data_in, passes_bound.
  rewrite Hc. cbn [negb].
  replace (Z.to_nat (timeout / poll_interval) + 2)%nat
    with (S (Z.to_nat (timeout / poll_interval) + 1)) by lia.
  rewrite Receive.run_loop_S. unfold pass, start_state, time_time.
  cbn [world start_time].
  destruct (Z.ltb_spec (now (time_sleep settle_delay w)
                        - now (time_sleep settle_delay w)) timeout); [lia|].
  reflexivity.
Qed.

Lemma receive_data_no_time_witness :
  receive_data (Some (mkSerial true)) three_chunks 0 3000
  = Some (None, time_sleep settle_delay three_chunks).
Proof. apply receive_data_no_time; [reflexivity|lia]. Defined.

(** ** The download pipeline *)

Module Pipeline.

Local Open Scope list_scope.

(** [download] when the port is or can be opened and the trigger goes
    through. *)
Lemma download_good host output_dir st mode save_raw raw_filename :
  connected (serial_conn st) = true \/ opens host = true ->
  trigger_io host = Delivered ->
  exists n w' sc,
    rx w' = List.skipn n (rx (air st)) /\ connected sc = true
    /\ download host output_dir st mode save_raw raw_filename
       = let d := delivered n (rx (air st)) in
         let st3 := {| serial_conn := sc; air := w';
                       sent := sent st ++ [mode_value mode]; files := files st |} in
         let name := match raw_filename with
                     | Some f => f
                     | None => raw_name host mode (now w')
                     end in
         if (nonempty d && (save_raw || named raw_filename))%bool then
           if Str.is_empty name then Some (Fail OSError, st3)
           else Some (Ok (Some d),
                      {| serial_conn := sc; air := w';
                         sent := sent st ++ [mode_value mode];
                         files := files st ++ [RawFile (in_dir output_dir name) d] |})
         else Some (Ok (if nonempty d then Some d else None), st3).
Proof.
  intros Hconn Hio. unfold download.
  destruct (connected (serial_conn st)) eqn:Hc; cbn [negb].
  - unfold send_trigger. rewrite Hc, Hio. cbn [negb serial_conn air sent files].
    destruct (ReceiveMore.receive_data_delivered (serial_conn st) (air st)
                DOWNLOAD_TIMEOUT DEFAULT_IDLE_TIMEOUT Hc) as (n & w' & Hrx & ->).
    exists n, w', (serial_conn st). split; [assumption|]. split; [assumption|].
    cbv zeta. unfold time_time.
    destruct (delivered n (rx (air st))) as [|b d]; reflexivity.
  - destruct Hconn as [Hconn|Hopen]; [discriminate|].
    unfold connect. rewrite Hopen. cbn [negb].
    unfold send_trigger. cbn [serial_conn connected is_open negb air sent files].
    rewrite Hio. cbn [serial_conn connected is_open negb air sent files].
    destruct (ReceiveMore.receive_data_delivered (Some (mkSerial true))
                (time_sleep CONNECT_DELAY (air st))
                DOWNLOAD_TIMEOUT DEFAULT_IDLE_TIMEOUT eq_refl) as (n & w' & Hrx & ->).
    exists n, w', (Some (mkSerial true)). split; [assumption|]. split; [reflexivity|].
    cbv zeta. unfold time_time. cbn [time_sleep rx].
    destruct (delivered n (rx (air st))) as [|b d]; reflexivity.
Qed.



End Pipeline.



(** X15.  [download_and_export] returns no file, writes none and reads
    nothing from the transport both when the connection is closed and the
    port cannot be opened, in which case nothing is sent either and no time
    passes, and when the trigger cannot be written. *)
Theorem download_failure_paths host output_dir st mode format
    split_by_track save_raw :
  (connected (serial_conn st) = false /\ opens host = false)
  \/ ((connected (serial_conn st) = true \/ opens host = true)
      /\ trigger_io host <> Delivered) ->
  exists st',
    download_and_export host output_dir st mode format split_by_track save_raw
    = Some (Ok [], st')
    /\ files st' = files st /\ rx (air st') = rx (air st)
    /\ (opens host = false -> connected (serial_conn st) = false ->
        sent st' = sent st /\ now (air st') = now (air st)
        /\ serial_conn st' = serial_conn st).
Proof.
  unfold download_and_export, download.
  intros [[Hc Hopen]|[Hconn Hio]].
  - rewrite Hc. cbn [negb]. unfold connect. rewrite Hopen. cbn [negb].
    exists st. now repeat split.
  - destruct (connected (serial_conn st)) eqn:Hc; cbn [negb].
    + unfold send_trigger. rewrite Hc. cbn [negb].
      destruct (trigger_io host); [now destruct Hio| |];
        eexists; (split; [reflexivity|]); (split; [reflexivity|]);
        (split; [reflexivity|]); discriminate.
    + destruct Hconn as [Hconn|Hopen]; [discriminate|].
      unfold connect. rewrite Hopen. cbn [negb].
      unfold send_trigger. cbn [serial_conn connected is_open negb].
      destruct (trigger_io host); [now destruct Hio| |];
        eexists; (split; [reflexivity|]); (split; [reflexivity|]);
        (split; [reflexivity|]); intros Habs; rewrite Habs in Hopen; discriminate.
Qed.

Lemma download_failure_paths_witness :
  (exists st',
     download_and_export {| opens := false; trigger_io := Delivered;
                            strftime := fun _ => EmptyString |}
                         "downloads" fresh_station TILDE KML true true
     = Some (Ok [], st')
     /\ files st' = [] /\ rx (air st') = rx three_chunks)
  /\ (exists st',
        download_and_export {| opens := true; trigger_io := Refused;
                               strftime := fun _ => EmptyString |}
                            "downloads" fresh_station TILDE KML true true
        = Some (Ok [], st')
        /\ files st' = [] /\ rx (air st') = rx three_chunks).
Proof.
  split.
  - destruct (download_failure_paths
                {| opens := false; trigger_io := Delivered;
                   strftime := fun _ => EmptyString |}
                "downloads" fresh_station TILDE KML true true
                (or_introl (conj eq_refl eq_refl)))
      as (st' & H1 & H2 & H3 & _).
    exists st'. split; [exact H1|]. split; [exact H2|exact H3].
  - assert (Hio : Refused <> Delivered) by discriminate.
    destruct (download_failure_paths
                {| opens := true; trigger_io := Refused;
                   strftime := fun _ => EmptyString |}
                "downloads" fresh_station TILDE KML true true
                (or_intror (conj (or_intror (eq_refl true)) Hio)))
      as (st' & H1 & H2 & H3 & _).
    exists st'. split; [exact H1|]. split; [exact H2|exact H3].
Defined.

(** X16.  An empty raw file name is not the same as none.  Without
    [save_raw] it is ignored: [download] returns the data and writes no
    file.  With [save_raw] no name is generated in its place, and once data
    has been received [download] raises: the trigger was sent and the bytes
    were taken from the transport, but no file is written and the data is
    not returned. *)
Theorem download_empty_name host output_dir st mode save_raw :
  connected (serial_conn st) = true \/ opens host = true ->
  trigger_io host = Delivered ->
  exists n st',
    download host output_dir st mode save_raw (Some EmptyString)
    = Some (match delivered n (rx (air st)) with
            | [] => Ok None
            | d => if save_raw then Fail OSError else Ok (Some d)
            end, st')
    /\ rx (air st') = List.skipn n (rx (air st))
    /\ sent st' = (sent st ++ [mode_value mode])%list
    /\ files st' = files st.
Proof.
  intros Hconn Hio.
  destruct (Pipeline.download_good host output_dir st mode save_raw
              (Some EmptyString) Hconn Hio) as (n & w' & sc & Hrx & Hsc & ->).
  exists n. cbv zeta. cbn [Str.is_empty named negb]. rewrite orb_false_r.
  destruct (delivered n (rx (air st))) as [|b d]; cbn [nonempty andb];
    [|destruct save_raw];
    eexists; (split; [reflexivity|]); now repeat split.
Qed.

Lemma download_empty_name_witness :
  exists n st',
    download good_host "downloads" fresh_station TILDE true (Some EmptyString)
    = Some (match delivered n (rx three_chunks) with
            | [] => Ok None
            | _ => Fail OSError
            end, st')
    /\ rx (air st') = List.skipn n (rx three_chunks)
    /\ sent st' = [x7e]
    /\ files st' = [].
Proof.
  exact (download_empty_name good_host "downloads" fresh_station TILDE true
           (or_intror eq_refl) eq_refl).
Defined.
